(** * commandcenter: a shallow embedding of the request handling, model
    validation, discovery ranking, connection packing and directory
    authentication code, and the properties proved about it.

  Part I embeds the Python sources, one module per source file.
  Part II states and proves the properties. *)

From Stdlib Require Import ZArith QArith String Ascii List Lia DecimalString Floats.
From stdpp Require Import base list gmap strings sorting.

Open Scope string_scope.
Open Scope Z_scope.

(* ===================================================================== *)
(** * Part I: the embedding                                                *)
(* ===================================================================== *)

(** ** Python built-ins used by several modules *)
Module Py.

(** [bytes] and [str] values: one [ascii] per octet / character. *)
Abbreviation bytes := string (only parsing).

(** [needle in hay] on [bytes]/[str]: substring search. *)
Fixpoint contains (needle hay : string) : bool :=
  if String.prefix needle hay then true
  else match hay with
       | EmptyString => false
       | String _ rest => contains needle rest
       end.

(** [str.lower()] restricted to the ASCII range. *)
Definition lower_ascii (c : ascii) : ascii :=
  let n := nat_of_ascii c in
  if ((65 <=? n) && (n <=? 90))%nat then ascii_of_nat (n + 32) else c.

Fixpoint lower (s : string) : string :=
  match s with
  | EmptyString => EmptyString
  | String c rest => String (lower_ascii c) (lower rest)
  end.

(** Whitespace as [str.strip()] understands it on ASCII text. *)
Definition is_space (c : ascii) : bool :=
  let n := nat_of_ascii c in
  ((n =? 32) || ((9 <=? n) && (n <=? 13)) || ((28 <=? n) && (n <=? 31)))%nat.

Fixpoint lstrip (s : string) : string :=
  match s with
  | String c rest => if is_space c then lstrip rest else s
  | EmptyString => EmptyString
  end.

(** [rstrip] keeps a character when it is not a space or when something
    that is kept follows it. *)
Fixpoint rstrip (s : string) : string :=
  match s with
  | EmptyString => EmptyString
  | String c rest =>
      match rstrip rest with
      | EmptyString => if is_space c then EmptyString else String c EmptyString
      | kept => String c kept
      end
  end.

Definition strip (s : string) : string := rstrip (lstrip s).

(** [s.partition(" ")]: text before the first space, and text after it
    (both parts of the triple that the callers use). *)
Fixpoint partition_space (s : string) : string * string :=
  match s with
  | EmptyString => (EmptyString, EmptyString)
  | String c rest =>
      if Ascii.eqb c " "%char then (EmptyString, rest)
      else let '(h, t) := partition_space rest in (String c h, t)
  end.

(** [l[:k]] for an integer [k]: a negative bound counts from the end. *)
Definition slice_to {A} (k : Z) (l : list A) : list A :=
  if 0 <=? k then take (Z.to_nat k) l
  else take (Z.to_nat (Z.of_nat (length l) + k)) l.

(** [del l[:k]]: what is left of the list. *)
Definition del_slice_to {A} (k : Z) (l : list A) : list A :=
  if 0 <=? k then drop (Z.to_nat k) l
  else drop (Z.to_nat (Z.of_nat (length l) + k)) l.

(** A naive [datetime] (tzinfo is [None]): the seven calendar fields. *)
Record datetime := mk_datetime {
  year : N; month : N; day : N;
  hour : N; minute : N; second : N; microsecond : N
}.

Definition dt_fields (d : datetime) : list N :=
  [year d; month d; day d; hour d; minute d; second d; microsecond d].

(** Naive datetimes compare field by field, most significant first. *)
Fixpoint lex_compare (a b : list N) : comparison :=
  match a, b with
  | [], [] => Eq
  | [], _ :: _ => Lt
  | _ :: _, [] => Gt
  | x :: a', y :: b' =>
      match N.compare x y with
      | Eq => lex_compare a' b'
      | c => c
      end
  end.

Definition dt_compare (a b : datetime) : comparison :=
  lex_compare (dt_fields a) (dt_fields b).

Definition dt_gt (a b : datetime) : bool :=
  match dt_compare a b with Gt => true | _ => false end.
Definition dt_ge (a b : datetime) : bool :=
  match dt_compare a b with Lt => false | _ => true end.
Definition dt_le (a b : datetime) : bool :=
  match dt_compare a b with Gt => false | _ => true end.
Definition dt_lt (a b : datetime) : bool :=
  match dt_compare a b with Lt => true | _ => false end.

(** A datetime as BSON carries it, in whole milliseconds: what the driver
    encodes, in a stored document and in the bounds of a query alike, and
    what it decodes. *)
Definition bson_datetime (d : datetime) : datetime :=
  mk_datetime (year d) (month d) (day d) (hour d) (minute d) (second d)
              ((microsecond d / 1000) * 1000)%N.

(** Decimal rendering with zero padding, as [%0wd]. *)
Definition digits (n : N) : string := NilEmpty.string_of_uint (N.to_uint n).

Fixpoint zeros (k : nat) : string :=
  match k with O => EmptyString | S k' => String "0"%char (zeros k') end.

Definition pad (w : nat) (n : N) : string :=
  let d := match n with N0 => "0" | _ => digits n end in
  zeros (w - String.length d) +:+ d.

(** [datetime.isoformat()] of a naive value. *)
Definition isoformat (d : datetime) : string :=
  pad 4 (year d) +:+ "-" +:+ pad 2 (month d) +:+ "-" +:+ pad 2 (day d) +:+ "T" +:+
  pad 2 (hour d) +:+ ":" +:+ pad 2 (minute d) +:+ ":" +:+ pad 2 (second d) +:+
  match microsecond d with
  | N0 => ""
  | us => "." +:+ pad 6 us
  end.

(** JSON-like payload values. *)
#[warnings="-register-all"]
Inductive value :=
| VNone
| VBool (b : bool)
| VInt (z : Z)
| VFloat (f : float)
| VStr (s : string)
| VList (l : list value)
| VDict (d : list (string * value)).

End Py.

(** ** sources/traxx/util.py *)
Module TraxxUtil.
Import Py.

(** What [handle_request] sees of an [aiohttp.ClientResponse]. *)
Record ClientResponse := { status : Z; body : bytes }.

Inductive outcome :=
| Raise_ClientResponseError (code : Z)
| Raise_TraxxExpiredSession
| Raise_UnicodeDecodeError
| Return_None
| Return_reader (rows : list (list string)).

Definition html_marker : bytes := "<!DOCTYPE html>".

(** [ClientResponse.ok] is [400 > status]; [raise_for_status] raises when
    it is false. *)
Definition ok (r : ClientResponse) : bool := status r <? 400.

Section handle_request.
(** [bytes.decode()] and [csv.reader] are library code. *)
Variable decode : bytes -> option string.
Variable csv_reader : string -> list (list string).

Definition handle_request (response : ClientResponse)
           (raise_for_status : bool) : outcome :=
  if negb (ok response) then
    if raise_for_status then Raise_ClientResponseError (status response)
    else Return_None
  else
    let content := body response in
    match content with
    | EmptyString => Return_None
    | _ =>
        if contains html_marker content then Raise_TraxxExpiredSession
        else match decode content with
             | None => Raise_UnicodeDecodeError
             | Some text => Return_reader (csv_reader text)
             end
    end.
End handle_request.

End TraxxUtil.

(** ** sources/pi_web/models.py *)
Module PIWebModels.
Import Py.

Inductive WebIdType := FULL | IDONLY | PATHONLY | LOCALIDONLY | DEFAULTIDONLY.

Definition WebIdType_value (t : WebIdType) : string :=
  match t with
  | FULL => "Full" | IDONLY => "IDOnly" | PATHONLY => "PathOnly"
  | LOCALIDONLY => "LocalIDOnly" | DEFAULTIDONLY => "DefaultIDOnly"
  end.

Inductive PIWebObjType := POINT | ATTRIBUTE | ELEMENT.

Definition PIWebObjType_value (t : PIWebObjType) : string :=
  match t with POINT => "point" | ATTRIBUTE => "attribute" | ELEMENT => "element" end.

(** [Enum(v)]: the member whose value is [v], if there is one. *)
Definition enum_of {E} (members : list E) (value_of : E -> string) (v : string)
  : option E :=
  List.find (fun m => String.eqb (value_of m) v) members.

Definition WebIdType_of : string -> option WebIdType :=
  enum_of [FULL; IDONLY; PATHONLY; LOCALIDONLY; DEFAULTIDONLY] WebIdType_value.

Definition PIWebObjType_of : string -> option PIWebObjType :=
  enum_of [POINT; ATTRIBUTE; ELEMENT] PIWebObjType_value.

(** A validator function returns the value or raises [ValueError]. *)
Inductive checked (A : Type) :=
| Valid (v : A)
| ValueError (msg : string).
Arguments Valid {A} v.
Arguments ValueError {A} msg.

(** [restrict_obj_type]: the members are [str] subclasses, so [!=] compares
    their values. *)
Definition restrict_obj_type (v : PIWebObjType) : checked PIWebObjType :=
  if negb (String.eqb (PIWebObjType_value v) (PIWebObjType_value POINT))
  then ValueError "Only obj_type 'point' is currently supported"
  else Valid v.

(** [PIWebSubscription._restrict_source] *)
Definition _restrict_source (v : string) : checked string :=
  let v := strip (lower v) in
  if negb (String.eqb v "pi_web")
  then ValueError ("Invalid source '" +:+ v +:+ "' for ModelMetaclass")
  else Valid v.

(** The object built by [validator("field", ...)(f)]: the function with the
    names of the fields it is meant for. *)
Inductive validator_object :=
| ObjTypeValidator (fields : list string) (f : PIWebObjType -> checked PIWebObjType)
| StrValidator (fields : list string) (f : string -> checked string).

(** The statements of a class body that matter to the model metaclass.
    An annotated assignment declares a field, a (decorated) [def] or an
    assignment binds its name in the class namespace, and an expression
    statement is evaluated and its value dropped. *)
Inductive class_stmt :=
| AnnAssign (name : string)
| Bind (name : string) (v : validator_object)
| ExprStmt (v : validator_object).

(** The body of [class PIWebSubscription], statement by statement. *)
Definition PIWebSubscription_body : list class_stmt :=
  [ AnnAssign "web_id";
    AnnAssign "name";
    AnnAssign "web_id_type";
    AnnAssign "obj_type";
    AnnAssign "source";
    ExprStmt (ObjTypeValidator ["obj_type"] restrict_obj_type);
    Bind "_restrict_source" (StrValidator ["source"] _restrict_source) ].

(** The namespace handed to the metaclass: the names bound by the body. *)
Fixpoint class_namespace (body : list class_stmt) : list (string * validator_object) :=
  match body with
  | [] => []
  | Bind name v :: rest => (name, v) :: class_namespace rest
  | _ :: rest => class_namespace rest
  end.

Definition mentions (field : string) (fields : list string) : bool :=
  existsb (String.eqb field) fields.

(** pydantic's [extract_validators] walks the values of the namespace and
    keeps, per field, the validator objects found there. *)
Fixpoint obj_type_validators (field : string) (ns : list (string * validator_object))
  : list (PIWebObjType -> checked PIWebObjType) :=
  match ns with
  | [] => []
  | (_, ObjTypeValidator fields f) :: rest =>
      if mentions field fields then f :: obj_type_validators field rest
      else obj_type_validators field rest
  | _ :: rest => obj_type_validators field rest
  end.

Fixpoint str_validators (field : string) (ns : list (string * validator_object))
  : list (string -> checked string) :=
  match ns with
  | [] => []
  | (_, StrValidator fields f) :: rest =>
      if mentions field fields then f :: str_validators field rest
      else str_validators field rest
  | _ :: rest => str_validators field rest
  end.

Fixpoint run_validators {A} (vs : list (A -> checked A)) (v : A) : checked A :=
  match vs with
  | [] => Valid v
  | f :: rest =>
      match f v with
      | Valid v' => run_validators rest v'
      | ValueError msg => ValueError msg
      end
  end.

Record PIWebSubscription := {
  web_id : string;
  name : option string;
  web_id_type : WebIdType;
  obj_type : PIWebObjType;
  source : string
}.

(** Keyword arguments of the constructor; [None] is an argument left out. *)
Record PIWebSubscription_kwargs := {
  kw_web_id : option string;
  kw_name : option string;
  kw_web_id_type : option string;
  kw_obj_type : option string;
  kw_source : option string
}.

(** One entry of a [ValidationError]: the field and the message. *)
Definition error_entry : Type := string * string.

Definition field_errors {A} (field : string) (r : checked A) : list error_entry :=
  match r with Valid _ => [] | ValueError msg => [(field, msg)] end.

Definition checked_get {A} (r : checked A) (default : A) : A :=
  match r with Valid v => v | ValueError _ => default end.

(** Validation of one field: a supplied value is coerced to the field's
    type and then passed through the field's validators; a field left out
    takes its default, on which validators do not run. *)
Definition check_web_id (ns : list (string * validator_object)) (kw : option string)
  : checked string :=
  match kw with
  | None => ValueError "field required"
  | Some s => run_validators (str_validators "web_id" ns) s
  end.

Definition check_web_id_type (kw : option string) : checked WebIdType :=
  match kw with
  | None => Valid FULL
  | Some s =>
      match WebIdType_of s with
      | Some t => Valid t
      | None => ValueError "value is not a valid enumeration member"
      end
  end.

Definition check_obj_type (ns : list (string * validator_object)) (kw : option string)
  : checked PIWebObjType :=
  match kw with
  | None => Valid POINT
  | Some s =>
      match PIWebObjType_of s with
      | Some t => run_validators (obj_type_validators "obj_type" ns) t
      | None => ValueError "value is not a valid enumeration member"
      end
  end.

Definition check_source (ns : list (string * validator_object)) (kw : option string)
  : checked string :=
  match kw with
  | None => Valid "pi_web"
  | Some s => run_validators (str_validators "source" ns) s
  end.

(** [PIWebSubscription(...)] called with keyword arguments: the model, or the collected errors of a
    [ValidationError]. *)
Definition PIWebSubscription_init (kw : PIWebSubscription_kwargs)
  : list error_entry + PIWebSubscription :=
  let ns := class_namespace PIWebSubscription_body in
  let r_web_id := check_web_id ns (kw_web_id kw) in
  let r_type := check_web_id_type (kw_web_id_type kw) in
  let r_obj := check_obj_type ns (kw_obj_type kw) in
  let r_source := check_source ns (kw_source kw) in
  match (field_errors "web_id" r_web_id ++ field_errors "web_id_type" r_type ++
         field_errors "obj_type" r_obj ++ field_errors "source" r_source)%list with
  | [] => inr {| web_id := checked_get r_web_id "";
                 name := kw_name kw;
                 web_id_type := checked_get r_type FULL;
                 obj_type := checked_get r_obj POINT;
                 source := checked_get r_source "pi_web" |}
  | errors => inl errors
  end.

(** [PIWebMessageSubItem]: one sample of a frame. *)
Record PIWebMessageSubItem := {
  timestamp : datetime;
  value : Py.value;
  good : bool
}.

(** [_format_content]: the root validator applied to the parsed fields. A
    compound value without a "Name" entry raises [KeyError], which is
    [None] here. *)
Definition _format_content (raw_value : Py.value) (raw_good : bool) : option Py.value :=
  if negb raw_good then Some VNone
  else match raw_value with
       | VDict d =>
           match List.find (fun kv => String.eqb (fst kv) "Name") d with
           | Some (_, n) => Some n
           | None => None
           end
       | v => Some v
       end.

(** [PIWebMessageSubItem.dict]: a two-entry dictionary literal. *)
Definition subitem_dict (it : PIWebMessageSubItem) : gmap string Py.value :=
  <["value" := value it]> (<["timestamp" := VStr (isoformat (timestamp it))]> ∅).

Record PIWebMessageItem := {
  item_name : string;
  item_web_id : string;
  items : list PIWebMessageSubItem
}.

Record PIWebMessage := { message_items : list PIWebMessageItem }.

Record PIWebSubscriptionMessage := {
  subscription : PIWebSubscription;
  published_items : list (gmap string Py.value)
}.

End PIWebModels.

(** ** sources/pi_web/connection.py *)
Module PIWebConnection.
Import Py PIWebModels.

(** [build_index]: a dict comprehension over the subscriptions; a later
    subscription with the same WebId replaces an earlier one. *)
Definition build_index (subscriptions : list PIWebSubscription)
  : gmap string PIWebSubscription :=
  foldl (fun index s => <[web_id s := s]> index) ∅ subscriptions.

(** The [else] branch of the frame loop in [run]: every item of a parsed
    frame is looked up and republished; a WebId missing from the index
    fails the assertion, after the earlier items were put on the queue. *)
Fixpoint publish_items (index : gmap string PIWebSubscription)
         (data : list PIWebMessageItem)
  : list PIWebSubscriptionMessage * bool :=
  match data with
  | [] => ([], true)
  | item :: rest =>
      match index !! item_web_id item with
      | None => ([], false)
      | Some sub =>
          let message := {| subscription := sub;
                            published_items := List.map subitem_dict (items item) |} in
          let '(queue, finished) := publish_items index rest in
          (message :: queue, finished)
      end
  end.

Definition publish_frame (index : gmap string PIWebSubscription) (data : PIWebMessage)
  : list PIWebSubscriptionMessage * bool :=
  publish_items index (message_items data).

End PIWebConnection.

(** ** util/aiohttp/flows/filecookie.py *)
Module FileCookie.
Import Py.

(** [str.split("/")] *)
Fixpoint split_slash (s : string) : list string :=
  match s with
  | EmptyString => [EmptyString]
  | String c rest =>
      if Ascii.eqb c "/"%char then EmptyString :: split_slash rest
      else match split_slash rest with
           | [] => [String c EmptyString]
           | h :: t => String c h :: t
           end
  end.

(** [PurePosixPath.name]: the last component; empty components and [.]
    are dropped when the path is parsed. *)
Definition path_name (p : string) : string :=
  List.last
    (List.filter (fun part => negb (String.eqb part "" || String.eqb part "."))
                 (split_slash p))
    "".

(** [name.rfind(".")] *)
Fixpoint rfind_dot (s : string) : option nat :=
  match s with
  | EmptyString => None
  | String c rest =>
      match rfind_dot rest with
      | Some i => Some (S i)
      | None => if Ascii.eqb c "."%char then Some O else None
      end
  end.

(** [PurePath.suffix]: [name[i:]] when [0 < i < len(name) - 1]. *)
Definition suffix (p : string) : string :=
  let name := path_name p in
  match rfind_dot name with
  | Some i =>
      if ((0 <? i) && (i + 1 <? String.length name))%nat
      then String.substring i (String.length name - i) name
      else ""
  | None => ""
  end.

Definition accepted_suffixes : list string := [".json"; ".toml"; ".yml"].

Inductive init_outcome :=
| Raise_FileNotFoundError (path : string)
| Raise_ValueError (msg : string)
| Flow (path : string).

Section init.
(** [Path.exists()] asks the file system. *)
Variable path_exists : string -> bool.

(** [FileCookieAuthFlow.__init__] *)
Definition FileCookieAuthFlow_init (path : string) : init_outcome :=
  if negb (path_exists path) then Raise_FileNotFoundError path
  else if negb (existsb (String.eqb (lower (suffix path))) accepted_suffixes)
       then Raise_ValueError ("Invalid file type " +:+ suffix path +:+ ".")
       else Flow path.
End init.

End FileCookie.

(** ** sources/traxx/models.py *)
Module TraxxModels.
Import Py.

Inductive SensorTypes := PROXIMITY | VOLTS | TEMP | CURRENT | AMBIENT.

Record TraxxSubscription := {
  asset_id : Z;
  sensor_id : string;
  sensor_type : SensorTypes;
  source : string
}.

(** [TraxxSensorItem]: the timestamp is naive once parsed. *)
Record TraxxSensorItem := {
  timestamp : datetime;
  value : float
}.

Record TraxxSensorMessage := {
  subscription : TraxxSubscription;
  items : list TraxxSensorItem
}.

(** The list comprehension of [TraxxSensorMessage.filter]. *)
Fixpoint items_after (last_timestamp : datetime) (l : list TraxxSensorItem)
  : list TraxxSensorItem :=
  match l with
  | [] => []
  | item :: rest =>
      if dt_gt (timestamp item) last_timestamp
      then item :: items_after last_timestamp rest
      else items_after last_timestamp rest
  end.

(** [TraxxSensorMessage.filter]: the message after the assignment to
    [self.items]. *)
Definition TraxxSensorMessage_filter (self : TraxxSensorMessage)
           (last_timestamp : datetime) : TraxxSensorMessage :=
  {| subscription := subscription self;
     items := items_after last_timestamp (items self) |}.

End TraxxModels.

(** ** telalert/models.py *)
Module TelAlertModels.
Import Py.

(** A keyword argument: left out, passed as [None], or passed a value. *)
Inductive arg (A : Type) :=
| Omitted
| PyNone
| Given (a : A).
Arguments Omitted {A}.
Arguments PyNone {A}.
Arguments Given {A} a.

Record TelAlertMessage := {
  msg : string;
  groups : option (list string);
  destinations : option (list string);
  subject : option string
}.

Record TelAlertMessage_kwargs := {
  kw_msg : arg string;
  kw_groups : arg (list string);
  kw_destinations : arg (list string);
  kw_subject : arg string
}.

(** Truth value of an optional sequence: [None] and the empty sequence
    are false. *)
Definition truthy (v : option (list string)) : bool :=
  match v with
  | Some (_ :: _) => true
  | _ => false
  end.

(** A required [str] field. *)
Definition check_msg (a : arg string) : string + string :=
  match a with
  | Omitted => inl "field required"
  | PyNone => inl "none is not an allowed value"
  | Given s => inr s
  end.

(** An optional sequence with [default_factory=list]: the factory is called
    for an argument left out; an explicit [None] is allowed and kept. *)
Definition check_sequence (a : arg (list string)) : option (list string) :=
  match a with
  | Omitted => Some []
  | PyNone => None
  | Given l => Some l
  end.

(** An optional [str] without default. *)
Definition check_subject (a : arg string) : option string :=
  match a with
  | Given s => Some s
  | _ => None
  end.

(** [_validate_message]: the root validator; [None] when it passes. *)
Definition _validate_message (groups destinations : option (list string))
  : option string :=
  if negb (truthy groups) && negb (truthy destinations)
  then Some "Must provide either a group or destination to deliver message"
  else None.

(** [TelAlertMessage(...)]: the message, or the errors of a
    [ValidationError]. The root validator runs on the validated fields. *)
Definition TelAlertMessage_init (kw : TelAlertMessage_kwargs)
  : list (string * string) + TelAlertMessage :=
  let g := check_sequence (kw_groups kw) in
  let d := check_sequence (kw_destinations kw) in
  let root_errors :=
    match _validate_message g d with
    | Some e => [("__root__", e)]
    | None => []
    end in
  match check_msg (kw_msg kw), root_errors with
  | inr m, [] =>
      inr {| msg := m; groups := g; destinations := d;
             subject := check_subject (kw_subject kw) |}
  | inr _, errors => inl errors
  | inl e, errors => inl (("msg", e) :: errors)
  end.

(** [DialoutDocument] as stored and as validated when read back. *)
Record DialoutDocument := {
  message : gmap string Py.value;
  idempotency_key : string;
  service : string;
  posted_by : string;
  timestamp : datetime
}.

End TelAlertModels.

(** ** telalert/client.py *)
Module TelAlertClient.
Import Py TelAlertModels.

Record client := { _path : string; _host : string }.

Inductive send_outcome :=
| Raise_TypeError (what : string)
| Dispatched (commands : list (list string)).

Definition group_command (self : client) (msg subject group : string) : list string :=
  [_path self; "-g"; group; "-m"; msg; "-host"; _host self; "-subject"; subject].

Definition destination_command (self : client) (msg subject destination : string)
  : list string :=
  [_path self; "-i"; destination; "-m"; msg; "-host"; _host self; "-subject"; subject].

(** [send_alert]: the two loops build the commands, which are then all
    executed; iterating over [None] raises before anything is executed. *)
Definition send_alert (self : client) (message : TelAlertMessage) : send_outcome :=
  let m := msg message in
  let subj := match subject message with
              | Some (String c s) => String c s
              | _ => ""
              end in
  match groups message with
  | None => Raise_TypeError "'NoneType' object is not iterable"
  | Some gs =>
      let commands := List.map (group_command self m subj) gs in
      match destinations message with
      | None => Raise_TypeError "'NoneType' object is not iterable"
      | Some ds =>
          Dispatched (commands ++ List.map (destination_command self m subj) ds)%list
      end
  end.

End TelAlertClient.

(** ** telalert/stream.py *)
Module TelAlertStream.
Import Py TelAlertModels.

(** The range filter of [get_alerts], as the dictionary holds it. *)
Record query := { q_gte : datetime; q_lte : datetime }.

(** The filter as the collection applies it: the two bounds reach it as
    BSON dates, that is, cut to whole milliseconds. *)
Definition in_range (q : query) (doc : DialoutDocument) : bool :=
  dt_ge (timestamp doc) (bson_datetime (q_gte q)) &&
  dt_le (timestamp doc) (bson_datetime (q_lte q)).

(** Ascending order on the [timestamp] key. *)
Definition by_timestamp (a b : DialoutDocument) : Prop :=
  Is_true (dt_le (timestamp a) (timestamp b)).

#[global] Instance by_timestamp_dec a b : Decision (by_timestamp a b).
Proof. unfold by_timestamp. apply _. Defined.

(** [collection.find(query, ...).sort("timestamp", 1)] on a collection
    held as the list of its documents. *)
Definition find_sorted (collection : list DialoutDocument) (q : query)
  : list DialoutDocument :=
  merge_sort by_timestamp (List.filter (in_range q) collection).

(** [dict.get(key)] *)
Definition get (d : gmap string Py.value) (key : string) : Py.value :=
  match d !! key with
  | Some v => v
  | None => VNone
  end.

Definition row : Type :=
  string * string * string * string * Py.value * Py.value * Py.value * Py.value.

Definition to_row (validated : DialoutDocument) : row :=
  (isoformat (timestamp validated),
   posted_by validated,
   service validated,
   idempotency_key validated,
   get (message validated) "subject",
   get (message validated) "groups",
   get (message validated) "destinations",
   get (message validated) "msg").

Inductive outcome :=
| Raise_ValueError (msg : string)
| Yield (rows : list row).

(** [get_alerts], consumed to its end: the outcome and the queries that
    were sent to the collection. [now] is what [datetime.utcnow()] reads. *)
Definition get_alerts (collection : list DialoutDocument) (now : datetime)
           (start_time : datetime) (end_time : option datetime)
  : outcome * list query :=
  let end_time := match end_time with Some e => e | None => now end in
  if dt_ge start_time end_time
  then (Raise_ValueError "'start_time' cannot be greater than or equal to 'end_time'", [])
  else
    let q := {| q_gte := start_time; q_lte := end_time |} in
    (Yield (List.map to_row (find_sorted collection q)), [q]).

End TelAlertStream.

(** ** auth/discovery.py *)
Module Discovery.
Import Py.

(** A mean round-trip time: seconds, or [math.inf] for a host that could
    not be reached. *)
Inductive rtt :=
| Finite (seconds : Q)
| Inf.

Definition rtt_eqb (a b : rtt) : bool :=
  match a, b with
  | Finite x, Finite y => Qeq_bool x y
  | Inf, Inf => true
  | _, _ => false
  end.

Definition rtt_ltb (a b : rtt) : bool :=
  match a, b with
  | Finite x, Finite y => negb (Qle_bool y x)
  | Finite _, Inf => true
  | Inf, _ => false
  end.

(** [(rtt1, host1) < (rtt2, host2)] on tuples: the first components
    decide unless they are equal. *)
Definition tuple_ltb (a b : rtt * string) : bool :=
  if rtt_eqb a.1 b.1 then String.ltb a.2 b.2 else rtt_ltb a.1 b.1.

(** [sorted] only asks [<]: an element stays in front of another one unless
    the other one is smaller. The order is total and two tuples of which
    neither is smaller carry the same host, so the list of hosts does not
    depend on the sorting algorithm. *)
Definition stays_before (a b : rtt * string) : Prop := Is_true (negb (tuple_ltb b a)).

#[global] Instance stays_before_dec a b : Decision (stays_before a b).
Proof. unfold stays_before. apply _. Defined.

Definition sorted (l : list (rtt * string)) : list (rtt * string) :=
  merge_sort stays_before l.

Inductive rtt_result :=
| Rtt (r : rtt)
| Raise_ZeroDivisionError.

Definition mean (l : list Q) : Q :=
  (fold_left Qplus l 0%Q / inject_Z (Z.of_nat (length l)))%Q.

(** The loop of [get_rtt]: [connect i] is the time the [i]-th connection
    took, or [None] for a socket error. The [else] of the loop computes the
    mean of the collected times. *)
Fixpoint get_rtt_loop (connect : nat -> option Q) (i remaining : nat) (acc : list Q)
  : rtt_result :=
  match remaining with
  | O =>
      match acc with
      | [] => Raise_ZeroDivisionError
      | _ => Rtt (Finite (mean acc))
      end
  | S remaining' =>
      match connect i with
      | None => Rtt Inf
      | Some elapsed => get_rtt_loop connect (S i) remaining' (acc ++ [elapsed])%list
      end
  end.

Definition get_rtt (connect : nat -> option Q) (mean_rtt_attempts : Z) : rtt_result :=
  get_rtt_loop connect 0 (Z.to_nat mean_rtt_attempts) [].

(** [line.decode().strip().split(" ")[0]] *)
Definition first_word (line : string) : string := (partition_space (strip line)).1.

(** [list_domain_controllers]: the candidates among the lines printed by
    nltest. *)
Definition list_domain_controllers (stdout : list string) : list string :=
  List.filter (contains ".") (List.map first_word stdout).

(** [[fut.result() for fut in futs]]: the first failed future raises. *)
Fixpoint results (futs : list rtt_result) : option (list rtt) :=
  match futs with
  | [] => Some []
  | Rtt r :: rest =>
      match results rest with
      | Some rs => Some (r :: rs)
      | None => None
      end
  | Raise_ZeroDivisionError :: _ => None
  end.

Inductive discover_outcome :=
| Raise_RuntimeError
| Raise_NoHostsFound (domain : string)
| Raise_ZeroDivision
| Hosts (hosts : list string).

Definition default_mean_rtt_attempts : Z := 3.
Definition default_limit : Z := 3.

Section discover.
(** [connect host i]: the outcome of the [i]-th connection to the LDAP port
    of [host] within the timeout. *)
Variable connect : string -> nat -> option Q.

Definition discover_domain_controllers (platform domain : string)
           (stdout : list string) (mean_rtt_attempts limit : Z) : discover_outcome :=
  if negb (String.eqb platform "win32") then Raise_RuntimeError
  else
    let hosts := list_domain_controllers stdout in
    match hosts with
    | [] => Raise_NoHostsFound domain
    | _ =>
        match results (List.map (fun host => get_rtt (connect host) mean_rtt_attempts)
                                hosts) with
        | None => Raise_ZeroDivision
        | Some rtt => Hosts (slice_to limit (List.map snd (sorted (zip rtt hosts))))
        end
    end.
End discover.

End Discovery.

(** ** sources/pi_web/integration.py *)
Module PIWebIntegration.
Import Py.

Section integration.
(** Subscriptions are hashable values kept in sets. *)
Context {Sub : Type} `{Countable Sub}.

(** The [while True] loop of [_create_connections]: one connection per
    round, given the set of the subscriptions it is started with. The loop
    has no bound of its own; [fuel] rounds are run here and [None] says that
    the loop was still running. *)
Fixpoint create_loop (fuel : nat) (max_subscriptions : Z) (subscriptions : list Sub)
  : option (list (gset Sub)) :=
  match fuel with
  | O => None
  | S fuel' =>
      if Z.of_nat (length subscriptions) <=? max_subscriptions
      then Some [list_to_set subscriptions]
      else
        match create_loop fuel' max_subscriptions
                          (del_slice_to max_subscriptions subscriptions) with
        | Some connections =>
            Some (list_to_set (slice_to max_subscriptions subscriptions) :: connections)
        | None => None
        end
  end.

(** What [_create_connections] did: the connections it created, and the
    value it returned, which is [None] when a connection failed to start. *)
Record created := {
  connections : list (gset Sub);
  returned : option (list (gset Sub))
}.

(** [started c] says whether the connection holding [c] came up. *)
Definition _create_connections (started : gset Sub -> bool) (fuel : nat)
           (max_subscriptions : Z) (subscriptions : list Sub) : option created :=
  match create_loop fuel max_subscriptions subscriptions with
  | None => None
  | Some conns =>
      Some {| connections := conns;
              returned := if forallb started conns then Some conns else None |}
  end.

Record integration := {
  closed : bool;
  subscribed : gset Sub;
  _max_capacity : Z;
  _max_subscriptions : Z
}.

Definition capacity (self : integration) : Z :=
  _max_capacity self - Z.of_nat (size (subscribed self)).

Inductive subscribe_outcome :=
| Raise_IntegrationClosed
| Still_running
| Returned (result : bool) (added : list (gset Sub)).

(** [subscribe]: the new subscriptions are listed in the order in which the
    set difference is iterated. *)
Definition subscribe (started : gset Sub -> bool) (fuel : nat) (self : integration)
           (subscriptions : gset Sub) : subscribe_outcome :=
  if closed self then Raise_IntegrationClosed
  else
    let subscriptions := elements (subscriptions ∖ subscribed self) in
    let count := Z.of_nat (length subscriptions) in
    match subscriptions with
    | [] => Returned true []
    | _ =>
        if count <=? capacity self then
          match _create_connections started fuel (_max_subscriptions self) subscriptions with
          | None => Still_running
          | Some c =>
              match returned c with
              | None => Returned false []
              | Some conns => Returned true conns
              end
          end
        else Returned false []
    end.
End integration.

End PIWebIntegration.

(** ** auth/client.py and auth/backend.py *)
Module Auth.
Import Py.

Record ActiveDirectoryUser := {
  scopes : gset string;
  username : string;
  first_name : string;
  last_name : string;
  email : option string;
  upi : option string;
  company : option string;
  country : option string
}.

(** The controllers and their search bases, as the two deques of
    [ActiveDirectoryClient]. *)
Record ActiveDirectoryClient := {
  _controllers : list string;
  _bases : list string
}.

(** [deque.rotate(1)]: the last element moves to the front. *)
Definition deque_rotate {A} (d : list A) : list A :=
  match d with
  | [] => []
  | _ => (drop (length d - 1) d ++ take (length d - 1) d)%list
  end.

(** [ActiveDirectoryClient.rotate] *)
Definition rotate (self : ActiveDirectoryClient) : ActiveDirectoryClient :=
  {| _controllers := deque_rotate (_controllers self);
     _bases := deque_rotate (_bases self) |}.

(** [ActiveDirectoryClient.__len__] *)
Definition len (self : ActiveDirectoryClient) : nat := length (_controllers self).

(** What an exception raised by [get_user] is caught as. *)
Inductive raised :=
| LDAPError (detail : string)
| OtherException (detail : string)
| NotAnException (detail : string).

Inductive get_user_outcome :=
| User (user : ActiveDirectoryUser)
| Raises (e : raised).

Inductive authenticate_outcome :=
| Return_None
| Return_credentials (credentials : list string) (user : ActiveDirectoryUser)
| Raise_AuthenticationError (msg : string) (cause : option raised)
| Propagates (e : raised).

(** [get_authorization_scheme_param] *)
Definition get_authorization_scheme_param (authorization : string) : string * string :=
  match authorization with
  | EmptyString => ("", "")
  | _ => partition_space authorization
  end.

(** The state after a call: the outcome, the client as it was left, and the
    number of [get_user] calls made. *)
Record run := {
  outcome : authenticate_outcome;
  client : ActiveDirectoryClient;
  attempts : nat
}.

Section backend.
(** [validate token] is the token handler; [get_user i client username] is
    the [i]-th directory lookup, made through the client's first
    controller. *)
Variable validate : string -> option string.
Variable get_user : nat -> ActiveDirectoryClient -> string -> get_user_outcome.

(** The [for _ in range(len(self.client))] loop, with [remaining] rounds to
    go after [made] calls. *)
Fixpoint lookup_loop (remaining made : nat) (cl : ActiveDirectoryClient)
         (username : string) : run :=
  match remaining with
  | O =>
      {| outcome := Raise_AuthenticationError
                      "Unable to communicate with active directory server." None;
         client := cl; attempts := made |}
  | S remaining' =>
      match get_user made cl username with
      | Raises (LDAPError d) => lookup_loop remaining' (S made) (rotate cl) username
      | Raises (OtherException d) =>
          {| outcome := Raise_AuthenticationError "An unhandled error occurred."
                          (Some (OtherException d));
             client := cl; attempts := S made |}
      | Raises (NotAnException d) =>
          {| outcome := Propagates (NotAnException d);
             client := cl; attempts := S made |}
      | User user =>
          {| outcome := Return_credentials (elements (scopes user)) user;
             client := cl; attempts := S made |}
      end
  end.

(** [ActiveDirectoryBackend.authenticate]; [authorization] is the value of
    the Authorization header, if the request has one. *)
Definition authenticate (cl : ActiveDirectoryClient) (authorization : option string)
  : run :=
  let anonymous := {| outcome := Return_None; client := cl; attempts := 0 |} in
  match authorization with
  | None | Some EmptyString => anonymous
  | Some authorization =>
      let '(scheme, token) := get_authorization_scheme_param authorization in
      if negb (String.eqb (lower scheme) "bearer") then anonymous
      else match validate token with
           | None => anonymous
           | Some username => lookup_loop (len cl) 0 cl username
           end
  end.
End backend.

End Auth.

(** ** sources/pi_web/models.py and connection.py: validation of a frame *)
Module PIWebFrames.
Import Py PIWebModels PIWebConnection.

(** A decoded frame before validation: the entries that the models read. *)
Record raw_subitem := {
  Timestamp : Py.value;
  Value : Py.value;
  Good : option bool
}.

Record raw_item := {
  Name : string;
  WebId : string;
  Items : list raw_subitem
}.

(** What constructing a model does: the model, a [ValidationError], or an
    exception that is not a validation error. *)
Inductive parsed (A : Type) :=
| Parsed (a : A)
| Invalid
| Unhandled.
Arguments Parsed {A} a.
Arguments Invalid {A}.
Arguments Unhandled {A}.

(** [sorted(v)] on sub items: stable, and decided by [__lt__], which
    compares the timestamps. *)
Fixpoint insert_item (x : PIWebMessageSubItem) (l : list PIWebMessageSubItem)
  : list PIWebMessageSubItem :=
  match l with
  | [] => [x]
  | y :: rest =>
      if dt_lt (timestamp y) (timestamp x) then y :: insert_item x rest
      else x :: l
  end.

(** [_sort_items] *)
Definition _sort_items (v : list PIWebMessageSubItem) : list PIWebMessageSubItem :=
  foldr insert_item [] v.

Section parsing.
(** [isoparse(v).replace(tzinfo=None)]; [None] when [isoparse] raises. *)
Variable isoparse : string -> option datetime.

(** [_parse_timestamp]: anything but a string, and a string that does not
    parse, is a field error. *)
Definition _parse_timestamp (v : Py.value) : option datetime :=
  match v with
  | VStr s => isoparse s
  | _ => None
  end.

(** [PIWebMessageSubItem(...)]: the fields are validated, then the root
    validator runs on the fields that passed. *)
Definition PIWebMessageSubItem_init (raw : raw_subitem) : parsed PIWebMessageSubItem :=
  let good_seen := match Good raw with Some g => g | None => false end in
  match _format_content (Value raw) good_seen with
  | None => Unhandled
  | Some v =>
      match _parse_timestamp (Timestamp raw), Good raw with
      | Some t, Some g => Parsed {| timestamp := t; value := v; good := g |}
      | _, _ => Invalid
      end
  end.

(** A list field: the elements are validated in order and their errors
    collected; an exception of another kind ends the validation. *)
Fixpoint validate_list {A B} (f : A -> parsed B) (l : list A) : parsed (list B) :=
  match l with
  | [] => Parsed []
  | x :: rest =>
      match f x with
      | Unhandled => Unhandled
      | Invalid =>
          match validate_list f rest with
          | Unhandled => Unhandled
          | _ => Invalid
          end
      | Parsed b =>
          match validate_list f rest with
          | Parsed bs => Parsed (b :: bs)
          | other => other
          end
      end
  end.

(** [PIWebMessageItem(...)]: the validated items are sorted. *)
Definition PIWebMessageItem_init (raw : raw_item) : parsed PIWebMessageItem :=
  match validate_list PIWebMessageSubItem_init (Items raw) with
  | Parsed its =>
      Parsed {| item_name := Name raw; item_web_id := WebId raw;
                items := _sort_items its |}
  | Invalid => Invalid
  | Unhandled => Unhandled
  end.

(** [PIWebMessage(...)] on the decoded frame. *)
Definition PIWebMessage_init (raw : list raw_item) : parsed PIWebMessage :=
  match validate_list PIWebMessageItem_init raw with
  | Parsed its => Parsed {| message_items := its |}
  | Invalid => Invalid
  | Unhandled => Unhandled
  end.

(** One round of the frame loop of [PIWebConnection.run]: a frame that
    does not validate is logged and dropped; otherwise its items are
    published. The boolean is false when the assertion on the index
    failed. *)
Definition on_frame (index : gmap string PIWebSubscription) (raw : list raw_item)
  : list PIWebSubscriptionMessage * bool :=
  match PIWebMessage_init raw with
  | Parsed data => publish_frame index data
  | _ => ([], true)
  end.
End parsing.

(** [build_url]: the subscriptions are visited in the order in which the set
    is iterated. *)
Fixpoint first_mismatch (web_id_type : WebIdType) (subscriptions : list PIWebSubscription)
  : option PIWebSubscription :=
  match subscriptions with
  | [] => None
  | s :: rest =>
      match web_id_type, PIWebModels.web_id_type s with
      | FULL, FULL | IDONLY, IDONLY | PATHONLY, PATHONLY
      | LOCALIDONLY, LOCALIDONLY | DEFAULTIDONLY, DEFAULTIDONLY =>
          first_mismatch web_id_type rest
      | _, _ => Some s
      end
  end.

(** [sep.join(parts)] *)
Fixpoint join (sep : string) (parts : list string) : string :=
  match parts with
  | [] => ""
  | [p] => p
  | p :: rest => p +:+ sep +:+ join sep rest
  end.

Definition build_url (web_id_type : WebIdType) (subscriptions : list PIWebSubscription)
  : checked string :=
  match first_mismatch web_id_type subscriptions with
  | Some s => ValueError ("Invalid WebIdType for subscription " +:+ web_id s)
  | None =>
      Valid ("/piwebapi/streamsets/channel?webId="
             +:+ join "&webId=" (List.map web_id subscriptions)
             +:+ "&webIdType=" +:+ WebIdType_value web_id_type
             +:+ "&includeInitialValues=true")
  end.

End PIWebFrames.

(** ** sources/pi_web/integration.py: unsubscribe *)
Module PIWebPool.
Import Py PIWebIntegration.

Section pool.
Context {Sub : Type} `{Countable Sub}.

(** The loop of [unsubscribe] over the connections of the pool, each given
    by the set of its subscriptions: the connections to cancel, and the
    subscriptions of these connections that are to be kept. *)
Fixpoint affected (subscriptions : gset Sub) (conns : list (gset Sub))
  : list (gset Sub) * list Sub :=
  match conns with
  | [] => ([], [])
  | connection :: rest =>
      let '(to_cancel, to_keep) := affected subscriptions rest in
      if decide (size (connection ∖ subscriptions) ≠ size connection)
      then (connection :: to_cancel,
            (elements (connection ∖ subscriptions) ++ to_keep)%list)
      else (to_cancel, to_keep)
  end.

Inductive unsubscribe_outcome :=
| Raise_IntegrationClosed
| Still_running
| Returned (result : bool) (cancelled added : list (gset Sub)).

(** [unsubscribe]: [current] is what [self.subscriptions] holds and [conns]
    are the connections of the pool. The affected connections are cancelled
    only after the connections that take over their other subscriptions
    have started. *)
Definition unsubscribe (started : gset Sub -> bool) (fuel : nat) (closed : bool)
           (current : gset Sub) (max_subscriptions : Z) (conns : list (gset Sub))
           (subscriptions : gset Sub) : unsubscribe_outcome :=
  if closed then Raise_IntegrationClosed
  else
    let not_applicable := subscriptions ∖ current in
    let subscriptions := subscriptions ∖ not_applicable in
    if decide (subscriptions = ∅) then Returned true [] []
    else
      let '(to_cancel, to_keep) := affected subscriptions conns in
      match to_keep with
      | [] => Returned true to_cancel []
      | _ =>
          match _create_connections started fuel max_subscriptions to_keep with
          | None => Still_running
          | Some c =>
              match returned c with
              | None => Returned false [] []
              | Some added => Returned true to_cancel added
              end
          end
      end.
End pool.

End PIWebPool.

(** ** sources/traxx/connection.py: the handling of one reply *)
Module TraxxConnection.
Import Py TraxxModels.

(** [TraxxSensorItem.dict] *)
Definition item_dict (it : TraxxSensorItem) : gmap string Py.value :=
  <["value" := VFloat (value it)]> (<["timestamp" := VStr (isoformat (timestamp it))]> ∅).

(** [l[-1]] *)
Definition last_item (l : list TraxxSensorItem) : option TraxxSensorItem :=
  List.last (List.map Some l) None.

(** What the handling of a validated message leaves behind: the watermark
    and the items that were published, if a message was put on the queue.
    Indexing an empty list raises [IndexError]. *)
Inductive handled :=
| Raise_IndexError
| Handled (last_timestamp : option datetime) (published : option (list TraxxSensorItem)).

(** The [else] branch of the validation in [run]: the first message only
    sets the watermark; later ones are filtered against it and published
    when something is left. *)
Definition handle_message (last_timestamp : option datetime) (data : TraxxSensorMessage)
  : handled :=
  match last_timestamp with
  | None =>
      match last_item (items data) with
      | Some it => Handled (Some (timestamp it)) None
      | None => Raise_IndexError
      end
  | Some t =>
      let data := TraxxSensorMessage_filter data t in
      match last_item (items data) with
      | Some it => Handled (Some (timestamp it)) (Some (items data))
      | None => Handled (Some t) None
      end
  end.

Section run.
(** [isoparse] and the conversion of a string to [float] are library
    code; [None] when they raise. *)
Variable isoparse : string -> option datetime.
Variable to_float : string -> option float.

(** [str.split("+")[0]]: the text before the first plus sign. *)
Fixpoint before_plus (s : string) : string :=
  match s with
  | EmptyString => EmptyString
  | String c rest =>
      if Ascii.eqb c "+"%char then EmptyString else String c (before_plus rest)
  end.

(** [TraxxSensorItem(timestamp=..., value=...)] on two strings. *)
Definition TraxxSensorItem_init (ts v : string) : option TraxxSensorItem :=
  match isoparse (strip (before_plus ts)), to_float v with
  | Some t, Some f => Some {| timestamp := t; value := f |}
  | _, _ => None
  end.

(** [[{"timestamp": line[0], "value": line[1]} for line in reader]]: a line
    with fewer than two columns raises [IndexError]. *)
Fixpoint columns (reader : list (list string)) : option (list (string * string)) :=
  match reader with
  | [] => Some []
  | (ts :: v :: _) :: rest =>
      match columns rest with
      | Some l => Some ((ts, v) :: l)
      | None => None
      end
  | _ :: _ => None
  end.

(** The validation of all items of a message; [None] for a
    [ValidationError]. *)
Fixpoint validate_items (l : list (string * string)) : option (list TraxxSensorItem) :=
  match l with
  | [] => Some []
  | (ts, v) :: rest =>
      match TraxxSensorItem_init ts v, validate_items rest with
      | Some it, Some its => Some (it :: its)
      | _, _ => None
      end
  end.

(** The handling of a reply in [run], from the reader to the queue: no
    reader and no line leave everything as it is, and so does a message
    that does not validate. *)
Definition handle_reply (subscription : TraxxSubscription)
           (last_timestamp : option datetime) (reader : option (list (list string)))
  : handled :=
  match reader with
  | None => Handled last_timestamp None
  | Some lines =>
      match columns lines with
      | None => Raise_IndexError
      | Some [] => Handled last_timestamp None
      | Some rows =>
          match validate_items rows with
          | None => Handled last_timestamp None
          | Some its =>
              handle_message last_timestamp
                             {| subscription := subscription; items := its |}
          end
      end
  end.
End run.

(** A run of replies, each already validated: the messages published, in
    order, and the watermark at the end. *)
Fixpoint handle_messages (last_timestamp : option datetime)
         (batches : list TraxxSensorMessage)
  : option (list (list TraxxSensorItem) * option datetime) :=
  match batches with
  | [] => Some ([], last_timestamp)
  | data :: rest =>
      match handle_message last_timestamp data with
      | Raise_IndexError => None
      | Handled t published =>
          match handle_messages t rest with
          | None => None
          | Some (queue, t') =>
              Some (match published with
                    | Some message => message :: queue
                    | None => queue
                    end, t')
          end
      end
  end.

End TraxxConnection.

(** ** sources/traxx/client.py *)
Module TraxxClient.

(** A consumer instance: its class name and the session it was built
    on. *)
Record consumer := { consumer_class : string; session : nat }.

(** [_get_consumer_instance]: [consumers] is an attribute of the class, one
    dictionary shared by all clients; it is passed in and handed back. *)
Definition _get_consumer_instance (self_session : nat) (name : string)
           (consumers : gmap string consumer) : consumer * gmap string consumer :=
  match consumers !! name with
  | Some instance => (instance, consumers)
  | None =>
      let instance := {| consumer_class := name; session := self_session |} in
      (instance, <[name := instance]> consumers)
  end.

(** [TraxxHttpClient.sensors] *)
Definition sensors (self_session : nat) (consumers : gmap string consumer)
  : consumer * gmap string consumer :=
  _get_consumer_instance self_session "Sensors" consumers.

End TraxxClient.

(** ** sources/traxx/integration.py *)
Module TraxxIntegration.
Import Py.

Section integration.
Context {Sub : Type} `{Countable Sub}.

(** [_create_connections]: one connection per subscription, started with
    the set of that subscription alone; [None] is returned when one of them
    failed to start. *)
Definition _create_connections (started : gset Sub -> bool) (subscriptions : list Sub)
  : list (gset Sub) * option (list (gset Sub)) :=
  let connections := List.map (fun s => ({[s]} : gset Sub)) subscriptions in
  (connections, if forallb started connections then Some connections else None).

Inductive subscribe_outcome :=
| Raise_IntegrationClosed
| Returned (result : bool) (added : list (gset Sub)).

Definition subscribe (started : gset Sub -> bool) (closed : bool) (current : gset Sub)
           (max_subscriptions : Z) (subscriptions : gset Sub) : subscribe_outcome :=
  if closed then Raise_IntegrationClosed
  else
    let subscriptions := elements (subscriptions ∖ current) in
    let capacity := max_subscriptions - Z.of_nat (size current) in
    let count := Z.of_nat (length subscriptions) in
    match subscriptions with
    | [] => Returned true []
    | _ =>
        if count <=? capacity then
          match (_create_connections started subscriptions).2 with
          | None => Returned false []
          | Some connections => Returned true connections
          end
        else Returned false []
    end.

(** [TraxxConnection.subscription]: the first element of the set listed,
    or [None]. *)
Definition subscription (connection : gset Sub) : option Sub := head (elements connection).

Inductive unsubscribe_outcome :=
| Unsubscribe_IntegrationClosed
| Return_None (cancelled : list (gset Sub)).

(** [unsubscribe]: every connection whose subscription is one of the
    applicable ones is cancelled; no value is returned. *)
Definition unsubscribe (closed : bool) (current : gset Sub) (conns : list (gset Sub))
           (subscriptions : gset Sub) : unsubscribe_outcome :=
  if closed then Unsubscribe_IntegrationClosed
  else
    let not_applicable := subscriptions ∖ current in
    let subscriptions := subscriptions ∖ not_applicable in
    Return_None
      (List.filter (fun connection =>
                      match subscription connection with
                      | Some s => bool_decide (s ∈ subscriptions)
                      | None => false
                      end) conns).
End integration.

End TraxxIntegration.

(** ** auth/client.py: construction and the directory lookup *)
Module AuthClient.
Import Py Auth.

(** [str.upper()] restricted to the ASCII range. *)
Definition upper_ascii (c : ascii) : ascii :=
  let n := nat_of_ascii c in
  if ((97 <=? n) && (n <=? 122))%nat then ascii_of_nat (n - 32) else c.

Fixpoint upper (s : string) : string :=
  match s with
  | EmptyString => EmptyString
  | String c rest => String (upper_ascii c) (upper rest)
  end.

Inductive init_outcome :=
| Raise_ValueError (msg : string)
| Raise_from_discovery
| Raise_LDAPError
| Constructed (domain mechanism : string) (client : ActiveDirectoryClient).

Section init.
(** [discover_domain()] and [discover_domain_controllers()], [None] when
    they raise, and [get_root_dse] for a controller URL, [None] when the
    directory does not answer. *)
Variable discover_domain : option string.
Variable discover_domain_controllers : option (list string).
Variable get_root_dse : string -> option string.

(** The list comprehension over the controllers: the first failing lookup
    raises. *)
Fixpoint root_dses (controllers : list string) : option (list string) :=
  match controllers with
  | [] => Some []
  | url :: rest =>
      match get_root_dse url, root_dses rest with
      | Some base, Some bases => Some (base :: bases)
      | _, _ => None
      end
  end.

Definition scheme (tls : bool) : string := if tls then "ldaps://" else "ldap://".

(** [ActiveDirectoryClient.__init__] *)
Definition ActiveDirectoryClient_init (platform : string) (domain : option string)
           (hosts : option (list string)) (tls : bool) (mechanism : string)
  : init_outcome :=
  let mechanism := upper mechanism in
  if negb (String.eqb mechanism "GSSAPI" || String.eqb mechanism "SIMPLE")
  then Raise_ValueError ("Invalid authentication mechanism " +:+ mechanism)
  else
    let no_hosts := match hosts with
                    | None | Some [] => true
                    | Some (_ :: _) => false
                    end in
    if no_hosts && negb (String.eqb platform "win32")
    then Raise_ValueError "Automatic domain controller discovery is only available on windows platforms. You must explicitely pass the controller hosts."
    else
      let domain := match domain with
                    | Some (String c d) => Some (String c d)
                    | _ => discover_domain
                    end in
      match domain with
      | None => Raise_from_discovery
      | Some domain =>
          let hosts := match hosts with
                       | Some (h :: hs) => Some (h :: hs)
                       | _ => discover_domain_controllers
                       end in
          match hosts with
          | None => Raise_from_discovery
          | Some hosts =>
              let controllers := List.map (fun host => scheme tls +:+ host) hosts in
              match root_dses controllers with
              | None => Raise_LDAPError
              | Some bases =>
                  Constructed (upper domain) mechanism
                              {| _controllers := controllers; _bases := bases |}
              end
          end
      end.
End init.

(** The lazy group of [_CN_PATTERN] followed by its lookahead: the text up
    to the next comma, which a line break must not precede. *)
Fixpoint up_to_comma (s : string) : option string :=
  match s with
  | EmptyString => None
  | String c rest =>
      if Ascii.eqb c ","%char then Some EmptyString
      else if Ascii.eqb c (ascii_of_nat 10) then None
      else match up_to_comma rest with
           | Some g => Some (String c g)
           | None => None
           end
  end.

(** [_CN_PATTERN.search(group)] and [match.group(1)]: the leftmost place
    behind a "CN=" from which a comma is reached. *)
Fixpoint cn_search (group : string) : option string :=
  match group with
  | EmptyString => None
  | String c rest =>
      match (if String.prefix "CN=" group
             then up_to_comma (String.substring 3 (String.length group - 3) group)
             else None) with
      | Some g => Some g
      | None => cn_search rest
      end
  end.

(** The loop over [result["memberOf"]]. *)
Fixpoint scopes_of (member_of : list string) : gset string :=
  match member_of with
  | [] => ∅
  | group :: rest =>
      match cn_search group with
      | Some cn => {[cn]} ∪ scopes_of rest
      | None => scopes_of rest
      end
  end.

Inductive scopes_outcome :=
| Raise_UserNotFound
| Raise_AssertionError
| Raise_KeyError
| Scopes (scopes : gset string).

(** The part of [get_user] between the search and the construction of the
    user: an entry is the mapping from attribute names to value lists. *)
Definition user_scopes (results : list (gmap string (list string))) : scopes_outcome :=
  match results with
  | [] => Raise_UserNotFound
  | [result] =>
      match result !! "memberOf" with
      | None => Raise_KeyError
      | Some member_of => Scopes (scopes_of member_of)
      end
  | _ :: _ :: _ => Raise_AssertionError
  end.

(** [LDAPItem.validate] on a list of strings. *)
Definition LDAPItem_validate (v : list string) : option string :=
  match v with
  | [] => Some ""
  | [x] => Some x
  | _ :: _ :: _ => None
  end.

End AuthClient.

(** ** auth/discovery.py: the domain of the host *)
Module DiscoverDomain.
Import Py AuthClient.

(** [s[n:]] *)
Fixpoint drop_chars (n : nat) (s : string) : string :=
  match n, s with
  | O, _ => s
  | S n', String _ rest => drop_chars n' rest
  | S _, EmptyString => EmptyString
  end.

(** [s.split(".")[0]]: the text before the first dot. *)
Fixpoint before_dot (s : string) : string :=
  match s with
  | EmptyString => EmptyString
  | String c rest =>
      if Ascii.eqb c "."%char then EmptyString else String c (before_dot rest)
  end.

(** [discover_domain], given the host name and the canonical name that the
    resolver returned for it. *)
Definition discover_domain (host fqdn : string) : string :=
  upper (before_dot (drop_chars (String.length host + 1) fqdn)).

End DiscoverDomain.

(** ** util/aiohttp/flows/filecookie.py: the parser of a request *)
Module FileCookieFlow.
Import Py FileCookie.

Inductive parser := json_loads | toml_loads | yaml_safe_load.

(** The [match] statement of [auth_flow]: the parser for the file, or
    none when no case applies, which leaves [cookies] unbound. *)
Definition parser_for (path : string) : option parser :=
  let s := lower (suffix path) in
  if String.eqb s ".json" then Some json_loads
  else if String.eqb s ".toml" then Some toml_loads
  else if String.eqb s ".yml" then Some yaml_safe_load
  else None.

Inductive flow_outcome :=
| Raise_UnboundLocalError
| Raise_parse_error
| Cookies (cookies : list (string * string)).

Section auth_flow.
(** The text of the file when the request is sent, and the three parsers;
    [None] when a parser raises. *)
Variable read_text : string -> string.
Variable parse : parser -> string -> option (list (string * string)).

(** [auth_flow]: the cookies with which the request is updated. *)
Definition auth_flow (path : string) : flow_outcome :=
  match parser_for path with
  | None => Raise_UnboundLocalError
  | Some p =>
      match parse p (read_text path) with
      | Some cookies => Cookies cookies
      | None => Raise_parse_error
      end
  end.
End auth_flow.

End FileCookieFlow.

(** ** dependencies/telalert.py, routes/telalert.py and client.py *)
Module Dialout.
Import Py TelAlertModels TelAlertClient TelAlertStream.

Record DialoutRequest := {
  request_message : TelAlertMessage;
  request_key : string
}.

Definition optional_list (v : option (list string)) : Py.value :=
  match v with
  | Some l => VList (List.map VStr l)
  | None => VNone
  end.

Definition optional_str (v : option string) : Py.value :=
  match v with
  | Some s => VStr s
  | None => VNone
  end.

(** [TelAlertMessage.dict()] *)
Definition message_dict (m : TelAlertMessage) : gmap string Py.value :=
  <["subject" := optional_str (subject m)]>
    (<["destinations" := optional_list (destinations m)]>
       (<["groups" := optional_list (groups m)]>
          (<["msg" := VStr (msg m)]> ∅))).

(** [DialoutRequest.to_document]; the user identity and the clock are what
    the default factories of the document read. *)
Definition to_document (identity : string) (now : datetime) (self : DialoutRequest)
  : DialoutDocument :=
  {| message := message_dict (request_message self);
     idempotency_key := request_key self;
     service := "telalert";
     posted_by := identity;
     timestamp := now |}.

(** A document as it is read back from the collection. *)
Definition stored (document : DialoutDocument) : DialoutDocument :=
  {| message := message document;
     idempotency_key := idempotency_key document;
     service := service document;
     posted_by := posted_by document;
     timestamp := bson_datetime (timestamp document) |}.

(** [collection.insert_one] on a collection with a unique index on the
    idempotency key; [None] stands for [DuplicateKeyError]. *)
Definition insert_one (collection : list DialoutDocument) (document : DialoutDocument)
  : option (list DialoutDocument) :=
  if existsb (fun d => String.eqb (idempotency_key d) (idempotency_key document)) collection
  then None
  else Some (collection ++ [stored document])%list.

(** [post_dialout]: whether the request was stored, and the collection
    afterwards. *)
Definition post_dialout (identity : string) (now : datetime) (dialout : DialoutRequest)
           (collection : list DialoutDocument) : bool * list DialoutDocument :=
  match insert_one collection (to_document identity now dialout) with
  | Some collection' => (true, collection')
  | None => (false, collection)
  end.

Inductive status := OK | FAILED.

(** The route [alert]: the status answered, the collection afterwards, and
    the outcome of the background task when one was added. *)
Definition alert (client : TelAlertClient.client) (identity : string) (now : datetime)
           (dialout : DialoutRequest) (collection : list DialoutDocument)
  : status * list DialoutDocument * option send_outcome :=
  let '(post, collection') := post_dialout identity now dialout collection in
  if negb post then (FAILED, collection', None)
  else (OK, collection', Some (send_alert client (request_message dialout))).

Definition optional_arg {A} (v : option A) : arg A :=
  match v with
  | Some a => Given a
  | None => PyNone
  end.

(** The keyword arguments with which a message that went over the wire as
    JSON is validated again: every field is present, [None] as null. *)
Definition transmitted (m : TelAlertMessage) : TelAlertMessage_kwargs :=
  {| kw_msg := Given (msg m);
     kw_groups := optional_arg (groups m);
     kw_destinations := optional_arg (destinations m);
     kw_subject := optional_arg (subject m) |}.

(** The message that [CommandCenterClient.send_alert] builds: every
    parameter is passed on as a keyword, a parameter left at its default
    as [None]. *)
Definition client_message (msg : string) (groups destinations : option (list string))
           (subject : option string) : list (string * string) + TelAlertMessage :=
  TelAlertMessage_init
    {| kw_msg := Given msg;
       kw_groups := optional_arg groups;
       kw_destinations := optional_arg destinations;
       kw_subject := optional_arg subject |}.

End Dialout.

(* ===================================================================== *)
(** * Part II: properties                                                  *)
(* ===================================================================== *)

Module TraxxUtilSpec.
Import Py TraxxUtil.

Lemma marker_not_empty content :
  contains html_marker content = true -> content <> EmptyString.
Proof. intros H ->. discriminate H. Qed.

(** C1 (as amended). A body that contains the HTML marker never yields
    CSV rows; it yields the session-expired error exactly when the status
    is below 400, and otherwise the HTTP error (or nothing when that error
    is suppressed). *)
Theorem handle_request_html_body decode csv_reader response flag :
  contains html_marker (body response) = true ->
  (status response < 400 ->
     handle_request decode csv_reader response flag = Raise_TraxxExpiredSession) /\
  (400 <= status response ->
     handle_request decode csv_reader response flag =
       if flag then Raise_ClientResponseError (status response) else Return_None) /\
  (forall rows, handle_request decode csv_reader response flag <> Return_reader rows).
Proof.
  intros Hm. pose proof (marker_not_empty _ Hm) as Hne.
  unfold handle_request, ok.
  destruct (Z.ltb_spec (status response) 400) as [Hlt | Hge]; simpl.
  - rewrite Hm. destruct (body response); [congruence |].
    split; [reflexivity | split; [lia | discriminate]].
  - split; [lia | split; [reflexivity | destruct flag; discriminate]].
Qed.

Definition login_page : ClientResponse :=
  {| status := 200; body := "<!DOCTYPE html><html><body>Sign in</body></html>" |}.

Definition forbidden_page : ClientResponse :=
  {| status := 403; body := "<!DOCTYPE html><html><body>Forbidden</body></html>" |}.

Lemma handle_request_html_body_witness :
  handle_request Some (fun s => [[s]]) login_page true = Raise_TraxxExpiredSession.
Proof.
  apply (handle_request_html_body Some (fun s => [[s]]) login_page true);
    [reflexivity | simpl; lia].
Defined.

(** C1 as stated fails: with status 403 the marker in the body does not
    lead to the session-expired error. *)
Lemma handle_request_html_status_matters :
  ~ (forall decode csv_reader response flag,
       contains html_marker (body response) = true ->
       handle_request decode csv_reader response flag = Raise_TraxxExpiredSession).
Proof.
  intros H.
  specialize (H Some (fun s => [[s]]) forbidden_page true eq_refl).
  discriminate H.
Qed.

End TraxxUtilSpec.

Module PIWebModelsSpec.
Import Py PIWebModels.

(** The validator built from [restrict_obj_type] is the value of an
    expression statement, so the namespace does not hold it. *)
Lemma obj_type_has_no_validator :
  obj_type_validators "obj_type" (class_namespace PIWebSubscription_body) = [].
Proof. reflexivity. Qed.

Lemma restrict_obj_type_rejects t :
  t <> POINT -> exists msg, restrict_obj_type t = ValueError msg.
Proof. destruct t; [congruence | eexists; reflexivity ..]. Qed.

(** Construction with obj_type 'point' succeeds, given a WebId and the
    defaults of the other fields. *)
Lemma PIWebSubscription_point_accepted w n :
  PIWebSubscription_init
    {| kw_web_id := Some w; kw_name := n; kw_web_id_type := None;
       kw_obj_type := Some "point"; kw_source := None |}
  = inr {| web_id := w; name := n; web_id_type := FULL;
           obj_type := POINT; source := "pi_web" |}.
Proof. reflexivity. Qed.

(** C2, the code at the failing inputs: a subscription whose obj_type is
    'attribute' or 'element' is constructed, not rejected. *)
Theorem PIWebSubscription_obj_type_not_restricted w n t :
  PIWebSubscription_init
    {| kw_web_id := Some w; kw_name := n; kw_web_id_type := None;
       kw_obj_type := Some (PIWebObjType_value t); kw_source := None |}
  = inr {| web_id := w; name := n; web_id_type := FULL;
           obj_type := t; source := "pi_web" |}.
Proof. destruct t; reflexivity. Qed.

Lemma subitem_dict_lookup_timestamp it :
  subitem_dict it !! "timestamp" = Some (VStr (isoformat (timestamp it))).
Proof.
  unfold subitem_dict.
  rewrite lookup_insert_ne by discriminate. apply lookup_insert_eq.
Qed.

Lemma subitem_dict_lookup_value it :
  subitem_dict it !! "value" = Some (value it).
Proof. unfold subitem_dict. apply lookup_insert_eq. Qed.

Lemma subitem_dict_dom it :
  dom (subitem_dict it) = ({["timestamp"]} ∪ {["value"]} : gset string).
Proof.
  unfold subitem_dict. rewrite !dom_insert_L, dom_empty_L. set_solver.
Qed.

Lemma subitem_dict_no_good it : subitem_dict it !! "good" = None.
Proof.
  unfold subitem_dict.
  rewrite !lookup_insert_ne by discriminate. apply lookup_empty.
Qed.

End PIWebModelsSpec.

Module PIWebConnectionSpec.
Import Py PIWebModels PIWebConnection PIWebModelsSpec.

Lemma publish_items_origin index data m :
  m ∈ (publish_items index data).1 ->
  exists item, item ∈ data /\
    published_items m = List.map subitem_dict (items item).
Proof.
  induction data as [| item rest IH]; simpl.
  - intros H. inversion H.
  - destruct (index !! item_web_id item) as [sub |]; simpl.
    + destruct (publish_items index rest) as [queue finished] eqn:E. simpl in *.
      intros [-> | Hin]%elem_of_cons.
      * exists item. split; [left | reflexivity].
      * destruct (IH Hin) as (item' & Hi & Hp).
        exists item'. split; [right; exact Hi | exact Hp].
    + intros H. inversion H.
Qed.

(** C10. Every item of every message published for a frame is the
    dictionary of one parsed sample: its keys are exactly 'timestamp' and
    'value', the timestamp is the ISO-8601 text of the sample's naive
    timestamp, the value is the sample's value, and there is no 'good'
    key. *)
Theorem published_item_keys index data m d :
  m ∈ (publish_frame index data).1 ->
  d ∈ published_items m ->
  dom d = ({["timestamp"]} ∪ {["value"]} : gset string) /\
  d !! "good" = None /\
  exists item it,
    item ∈ message_items data /\ it ∈ items item /\
    d !! "timestamp" = Some (VStr (isoformat (timestamp it))) /\
    d !! "value" = Some (value it).
Proof.
  intros Hm Hd. unfold publish_frame in Hm.
  destruct (publish_items_origin _ _ _ Hm) as (item & Hitem & Hp).
  rewrite Hp in Hd. apply list_elem_of_In, in_map_iff in Hd.
  destruct Hd as (it & <- & Hit). apply list_elem_of_In in Hit.
  split; [apply subitem_dict_dom |].
  split; [apply subitem_dict_no_good |].
  exists item, it.
  auto using subitem_dict_lookup_timestamp, subitem_dict_lookup_value.
Qed.

Definition sample_subscription : PIWebSubscription :=
  {| web_id := "F1DPEmoryo"; name := Some "AIC681059.PV"; web_id_type := FULL;
     obj_type := POINT; source := "pi_web" |}.

Definition sample_subitem : PIWebMessageSubItem :=
  {| timestamp := mk_datetime 2022 12 9 14 6 36 0; value := VInt 50; good := true |}.

Definition sample_frame : PIWebMessage :=
  {| message_items :=
       [ {| item_name := "AIC681059.PV"; item_web_id := "F1DPEmoryo";
            items := [sample_subitem] |} ] |}.

Lemma published_item_keys_witness :
  dom (subitem_dict sample_subitem) = ({["timestamp"]} ∪ {["value"]} : gset string) /\
  subitem_dict sample_subitem !! "good" = None.
Proof.
  pose proof (published_item_keys (build_index [sample_subscription]) sample_frame
                {| subscription := sample_subscription;
                   published_items := [subitem_dict sample_subitem] |}
                (subitem_dict sample_subitem)) as H.
  destruct H as (Hdom & Hgood & _).
  - vm_compute. left.
  - simpl. left.
  - split; assumption.
Defined.

End PIWebConnectionSpec.

Module FileCookieSpec.
Import Py FileCookie.

(** C3 (as amended). The flow is constructed exactly for an existing file
    whose lower-cased suffix is .json, .toml or .yml; a missing file is a
    FileNotFoundError, and any other suffix of an existing file, .yaml
    included, is a ValueError. *)
Theorem FileCookieAuthFlow_init_outcome path_exists path :
  (path_exists path = false ->
     FileCookieAuthFlow_init path_exists path = Raise_FileNotFoundError path) /\
  (path_exists path = true ->
     lower (suffix path) ∈ [".json"; ".toml"; ".yml"] ->
     FileCookieAuthFlow_init path_exists path = Flow path) /\
  (path_exists path = true ->
     lower (suffix path) ∉ [".json"; ".toml"; ".yml"] ->
     FileCookieAuthFlow_init path_exists path =
       Raise_ValueError ("Invalid file type " +:+ suffix path +:+ ".")).
Proof.
  unfold FileCookieAuthFlow_init, accepted_suffixes.
  split; [intros ->; reflexivity |].
  split; intros -> Hs; simpl.
  - set (x := lower (suffix path)) in *.
    repeat (apply elem_of_cons in Hs as [-> | Hs]; [reflexivity |]).
    inversion Hs.
  - set (x := lower (suffix path)) in *.
    destruct (String.eqb_spec x ".json") as [-> | _];
      [exfalso; apply Hs; set_solver |].
    destruct (String.eqb_spec x ".toml") as [-> | _];
      [exfalso; apply Hs; set_solver |].
    destruct (String.eqb_spec x ".yml") as [-> | _];
      [exfalso; apply Hs; set_solver |].
    reflexivity.
Qed.

Lemma FileCookieAuthFlow_init_outcome_witness :
  FileCookieAuthFlow_init (fun _ => true) "conf/Cookies.YML" = Flow "conf/Cookies.YML".
Proof.
  apply (FileCookieAuthFlow_init_outcome (fun _ => true) "conf/Cookies.YML");
    [reflexivity | vm_compute; set_solver].
Defined.

(** C3 as stated fails: an existing file named with the .yaml extension is
    refused. *)
Lemma FileCookieAuthFlow_init_yaml_refused :
  suffix "conf/cookies.yaml" = ".yaml" /\
  FileCookieAuthFlow_init (fun _ => true) "conf/cookies.yaml" =
    Raise_ValueError "Invalid file type .yaml.".
Proof. split; reflexivity. Qed.

End FileCookieSpec.

Module PySpec.
Import Py.

Lemma lex_compare_refl a : lex_compare a a = Eq.
Proof. induction a as [| x a IH]; simpl; [reflexivity |]. by rewrite N.compare_refl. Qed.

Lemma lex_compare_antisym a b : lex_compare b a = CompOpp (lex_compare a b).
Proof.
  revert b. induction a as [| x a IH]; intros [| y b]; simpl; try reflexivity.
  rewrite (N.compare_antisym x y).
  destruct (N.compare x y); simpl; auto.
Qed.

Lemma lex_compare_trans_le a b c :
  lex_compare a b <> Gt -> lex_compare b c <> Gt -> lex_compare a c <> Gt.
Proof.
  revert b c. induction a as [| x a IH]; intros [| y b] [| z c]; simpl;
    try congruence.
  destruct (N.compare_spec x y) as [-> | Hxy | Hxy]; try congruence.
  - destruct (N.compare_spec y z) as [-> | Hyz | Hyz]; try congruence.
    apply IH.
  - intros _.
    destruct (N.compare_spec y z) as [-> | Hyz | Hyz]; try congruence.
    + intros _. destruct (N.compare_spec x z); try congruence; lia.
    + intros _. destruct (N.compare_spec x z); try congruence; lia.
Qed.

Lemma dt_compare_refl a : dt_compare a a = Eq.
Proof. apply lex_compare_refl. Qed.

Lemma dt_compare_antisym a b : dt_compare b a = CompOpp (dt_compare a b).
Proof. apply lex_compare_antisym. Qed.

Lemma dt_gt_irrefl a : dt_gt a a = false.
Proof. unfold dt_gt. by rewrite dt_compare_refl. Qed.

Lemma dt_lt_gt a b : dt_lt a b = dt_gt b a.
Proof.
  unfold dt_lt, dt_gt. rewrite (dt_compare_antisym a b).
  by destruct (dt_compare a b).
Qed.

Lemma dt_le_not_gt a b : dt_le a b = negb (dt_gt a b).
Proof. unfold dt_le, dt_gt. by destruct (dt_compare a b). Qed.

Lemma dt_ge_not_lt a b : dt_ge a b = negb (dt_lt a b).
Proof. unfold dt_ge, dt_lt. by destruct (dt_compare a b). Qed.

Lemma dt_lt_asym a b : dt_lt a b = true -> dt_gt a b = false.
Proof.
  unfold dt_lt, dt_gt. by destruct (dt_compare a b).
Qed.

Lemma dt_le_total a b : dt_le a b = true \/ dt_le b a = true.
Proof.
  unfold dt_le. rewrite (dt_compare_antisym a b).
  destruct (dt_compare a b); simpl; auto.
Qed.

Lemma dt_le_trans a b c : dt_le a b = true -> dt_le b c = true -> dt_le a c = true.
Proof.
  unfold dt_le, dt_compare. intros Hab Hbc.
  pose proof (lex_compare_trans_le (dt_fields a) (dt_fields b) (dt_fields c)) as H.
  destruct (lex_compare (dt_fields a) (dt_fields b)); try discriminate;
  destruct (lex_compare (dt_fields b) (dt_fields c)); try discriminate;
  destruct (lex_compare (dt_fields a) (dt_fields c)); try reflexivity;
  exfalso; apply H; congruence.
Qed.

(** The rendering of the timestamps shown in the message docstring. *)
Example isoformat_with_microseconds :
  isoformat (mk_datetime 2022 12 9 9 6 38 435012) = "2022-12-09T09:06:38.435012".
Proof. reflexivity. Qed.

Example isoformat_whole_second :
  isoformat (mk_datetime 2022 12 9 9 6 36 0) = "2022-12-09T09:06:36".
Proof. reflexivity. Qed.

Lemma dt_ge_le a b : dt_ge a b = dt_le b a.
Proof. unfold dt_ge, dt_le. rewrite (dt_compare_antisym a b). by destruct (dt_compare a b). Qed.

Lemma bson_datetime_idem t : bson_datetime (bson_datetime t) = bson_datetime t.
Proof.
  unfold bson_datetime. simpl. f_equal.
  rewrite N.div_mul by discriminate. reflexivity.
Qed.

Lemma bson_datetime_le t : dt_le (bson_datetime t) t = true.
Proof.
  destruct t as [y mo d h mi s u].
  unfold dt_le, dt_compare, bson_datetime, dt_fields. simpl.
  rewrite !N.compare_refl.
  pose proof (N.Div0.mul_div_le u 1000) as Hle.
  destruct (N.compare_spec (u / 1000 * 1000) u); [reflexivity | reflexivity | lia].
Qed.

Lemma bson_datetime_mono a b :
  dt_le a b = true -> dt_le (bson_datetime a) (bson_datetime b) = true.
Proof.
  destruct a as [y1 mo1 d1 h1 mi1 s1 u1], b as [y2 mo2 d2 h2 mi2 s2 u2].
  unfold dt_le, dt_compare, bson_datetime, dt_fields. simpl.
  destruct (y1 ?= y2)%N; try done.
  destruct (mo1 ?= mo2)%N; try done.
  destruct (d1 ?= d2)%N; try done.
  destruct (h1 ?= h2)%N; try done.
  destruct (mi1 ?= mi2)%N; try done.
  destruct (s1 ?= s2)%N; try done.
  intros Hle.
  assert (u1 <= u2)%N as Hu
      by (destruct (N.compare_spec u1 u2); [lia | lia | discriminate]).
  pose proof (N.Div0.div_le_mono u1 u2 1000 Hu) as Hdiv.
  destruct (N.compare_spec (u1 / 1000 * 1000) (u2 / 1000 * 1000));
    [reflexivity | reflexivity | lia].
Qed.

(** A time in whole milliseconds at or before a bound is at or before the
    bound cut to whole milliseconds. *)
Lemma bson_datetime_le_cut t bound :
  bson_datetime t = t -> dt_le t bound = true -> dt_le t (bson_datetime bound) = true.
Proof. intros Hwhole Hle. rewrite <- Hwhole. by apply bson_datetime_mono. Qed.

(** A time at or after a bound is at or after the cut bound. *)
Lemma bson_datetime_ge_cut t bound :
  dt_ge t bound = true -> dt_ge t (bson_datetime bound) = true.
Proof.
  rewrite !dt_ge_le. intros Hle.
  eapply dt_le_trans; [apply bson_datetime_le | exact Hle].
Qed.

End PySpec.

Module TraxxModelsSpec.
Import Py TraxxModels PySpec.

Lemma items_after_filter t l :
  items_after t l = List.filter (fun item => dt_gt (timestamp item) t) l.
Proof.
  induction l as [| item rest IH]; simpl; [reflexivity |].
  rewrite IH. reflexivity.
Qed.

Lemma items_after_sublist t l : sublist (items_after t l) l.
Proof.
  induction l as [| item rest IH]; simpl; [constructor |].
  destruct (dt_gt (timestamp item) t); by constructor.
Qed.

Lemma items_after_elem t l item :
  item ∈ items_after t l <-> item ∈ l /\ dt_gt (timestamp item) t = true.
Proof.
  rewrite items_after_filter, !list_elem_of_In, filter_In. reflexivity.
Qed.

(** C7. Filtering a message against a watermark [t] keeps exactly the
    items whose timestamp is strictly later than [t], in their original
    order, and drops every item at or before [t]; with three items at
    increasing times and the watermark at the second, only the third
    is left. *)
Theorem filter_keeps_strictly_later m t :
  items (TraxxSensorMessage_filter m t)
    = List.filter (fun item => dt_gt (timestamp item) t) (items m) /\
  sublist (items (TraxxSensorMessage_filter m t)) (items m) /\
  (forall item, item ∈ items (TraxxSensorMessage_filter m t) <->
                item ∈ items m /\ dt_gt (timestamp item) t = true) /\
  (forall item, dt_le (timestamp item) t = true ->
                item ∉ items (TraxxSensorMessage_filter m t)) /\
  (forall i1 i2 i3,
      items m = [i1; i2; i3] -> t = timestamp i2 ->
      dt_lt (timestamp i1) (timestamp i2) = true ->
      dt_lt (timestamp i2) (timestamp i3) = true ->
      items (TraxxSensorMessage_filter m t) = [i3]).
Proof.
  simpl. split; [apply items_after_filter |].
  split; [apply items_after_sublist |].
  split; [intros item; apply items_after_elem |].
  split.
  - intros item Hle [_ Hgt]%items_after_elem.
    rewrite dt_le_not_gt, Hgt in Hle. discriminate.
  - intros i1 i2 i3 -> -> H12 H23. simpl.
    rewrite (dt_lt_asym _ _ H12), dt_gt_irrefl.
    rewrite dt_lt_gt in H23. rewrite H23. reflexivity.
Qed.

Definition sample_subscription : TraxxSubscription :=
  {| asset_id := 17; sensor_id := "s1"; sensor_type := PROXIMITY; source := "traxx" |}.

Definition item_at (minute : N) (v : float) : TraxxSensorItem :=
  {| timestamp := mk_datetime 2023 1 5 10 minute 0 0; value := v |}.

Definition sample_message : TraxxSensorMessage :=
  {| subscription := sample_subscription;
     items := [item_at 1 1.5%float; item_at 2 2.5%float; item_at 3 3.5%float] |}.

Lemma filter_keeps_strictly_later_witness :
  items (TraxxSensorMessage_filter sample_message (mk_datetime 2023 1 5 10 2 0 0))
    = [item_at 3 3.5%float].
Proof.
  destruct (filter_keeps_strictly_later sample_message (mk_datetime 2023 1 5 10 2 0 0))
    as (_ & _ & _ & _ & H).
  apply (H (item_at 1 1.5%float) (item_at 2 2.5%float) (item_at 3 3.5%float));
    reflexivity.
Defined.

End TraxxModelsSpec.

Module TelAlertSpec.
Import Py TelAlertModels TelAlertClient.

(** C9. A message constructed with groups passed as None and a non-empty
    destinations list is accepted with groups left as None, and sending it
    raises on the loop over the groups: nothing is dispatched, not even the
    commands for the destinations. *)
Theorem none_groups_message_cannot_be_sent self m ds subj :
  ds <> [] ->
  exists message,
    TelAlertMessage_init
      {| kw_msg := Given m; kw_groups := PyNone;
         kw_destinations := Given ds; kw_subject := subj |} = inr message /\
    groups message = None /\
    destinations message = Some ds /\
    send_alert self message = Raise_TypeError "'NoneType' object is not iterable" /\
    (forall commands, send_alert self message <> Dispatched commands).
Proof.
  intros Hds. destruct ds as [| d ds]; [congruence |].
  eexists. split; [reflexivity |]. simpl.
  repeat split. unfold send_alert. simpl. discriminate.
Qed.

Lemma none_groups_message_cannot_be_sent_witness :
  exists message,
    TelAlertMessage_init
      {| kw_msg := Given "Pump 4 tripped"; kw_groups := PyNone;
         kw_destinations := Given ["oncall"]; kw_subject := Omitted |} = inr message /\
    groups message = None /\
    destinations message = Some ["oncall"] /\
    send_alert {| _path := "telalert.exe"; _host := "alerts01" |} message
      = Raise_TypeError "'NoneType' object is not iterable" /\
    (forall commands,
        send_alert {| _path := "telalert.exe"; _host := "alerts01" |} message
          <> Dispatched commands).
Proof.
  apply (none_groups_message_cannot_be_sent
           {| _path := "telalert.exe"; _host := "alerts01" |}
           "Pump 4 tripped" ["oncall"] Omitted).
  discriminate.
Defined.

End TelAlertSpec.

Module TelAlertStreamSpec.
Import Py TelAlertModels TelAlertStream PySpec.

#[local] Instance by_timestamp_total : Total by_timestamp.
Proof.
  intros a b. unfold by_timestamp.
  destruct (dt_le_total (timestamp a) (timestamp b)) as [-> | ->]; simpl; auto.
Qed.

#[local] Instance by_timestamp_trans : Transitive by_timestamp.
Proof.
  intros a b c. unfold by_timestamp. intros Hab Hbc.
  apply Is_true_true in Hab, Hbc. apply Is_true_true.
  eapply dt_le_trans; eassumption.
Qed.

Lemma find_sorted_sorted collection q :
  StronglySorted by_timestamp (find_sorted collection q).
Proof. apply StronglySorted_merge_sort; apply _. Qed.

Lemma find_sorted_perm collection q :
  find_sorted collection q ≡ₚ List.filter (in_range q) collection.
Proof. apply merge_sort_Permutation. Qed.

(** The row of a document: the timestamp in ISO-8601, the user, the
    service, the key, and the subject, groups, destinations and text of the
    message, [None] standing for an entry that the message does not have. *)
Definition document_row (doc : DialoutDocument) : row :=
  let entry key := match message doc !! key with Some v => v | None => VNone end in
  (isoformat (timestamp doc), posted_by doc, service doc, idempotency_key doc,
   entry "subject", entry "groups", entry "destinations", entry "msg").

Lemma find_sorted_elem collection q doc :
  doc ∈ find_sorted collection q <->
  doc ∈ collection /\
  dt_ge (timestamp doc) (bson_datetime (q_gte q)) = true /\
  dt_le (timestamp doc) (bson_datetime (q_lte q)) = true.
Proof.
  rewrite (find_sorted_perm collection q).
  rewrite list_elem_of_In, filter_In, <- list_elem_of_In.
  unfold in_range. rewrite andb_true_iff. reflexivity.
Qed.

(** C8 (as amended). An absent end time stands for the current time; when
    the start is not strictly before the end the stream fails with the
    invalid-range error and no query has been sent; otherwise a single query
    is sent and the rows are, in ascending order of timestamp, one for each
    of the documents whose timestamp lies between the start and the end as
    the collection receives them, which is cut to whole milliseconds, both
    included. Every document held in whole milliseconds whose timestamp lies
    between start and end is among them; and when start and end are in whole
    milliseconds themselves, the documents are exactly those between start
    and end. *)
Theorem get_alerts_range collection now start_time :
  get_alerts collection now start_time None
    = get_alerts collection now start_time (Some now) /\
  (forall end_time,
      dt_ge start_time end_time = true ->
      get_alerts collection now start_time (Some end_time)
        = (Raise_ValueError "'start_time' cannot be greater than or equal to 'end_time'",
           [])) /\
  (forall end_time,
      dt_lt start_time end_time = true ->
      exists docs,
        get_alerts collection now start_time (Some end_time)
          = (Yield (List.map document_row docs),
             [{| q_gte := start_time; q_lte := end_time |}]) /\
        StronglySorted by_timestamp docs /\
        docs ≡ₚ List.filter
                  (fun doc => dt_ge (timestamp doc) (bson_datetime start_time) &&
                              dt_le (timestamp doc) (bson_datetime end_time)) collection /\
        (forall doc, doc ∈ docs <->
                     doc ∈ collection /\
                     dt_ge (timestamp doc) (bson_datetime start_time) = true /\
                     dt_le (timestamp doc) (bson_datetime end_time) = true) /\
        (forall doc, doc ∈ collection ->
                     bson_datetime (timestamp doc) = timestamp doc ->
                     dt_ge (timestamp doc) start_time = true ->
                     dt_le (timestamp doc) end_time = true ->
                     doc ∈ docs) /\
        (bson_datetime start_time = start_time ->
         bson_datetime end_time = end_time ->
         forall doc, doc ∈ docs <->
                     doc ∈ collection /\
                     dt_ge (timestamp doc) start_time = true /\
                     dt_le (timestamp doc) end_time = true)).
Proof.
  split; [reflexivity |]. split.
  - intros end_time Hge. unfold get_alerts. rewrite Hge. reflexivity.
  - intros end_time Hlt. unfold get_alerts.
    rewrite dt_ge_not_lt, Hlt. simpl.
    set (q := {| q_gte := start_time; q_lte := end_time |}).
    exists (find_sorted collection q). split; [reflexivity |].
    split; [apply find_sorted_sorted |].
    split; [exact (find_sorted_perm collection q) |].
    split; [intros doc; exact (find_sorted_elem collection q doc) |].
    split.
    + intros doc Hin Hwhole Hge Hle. apply find_sorted_elem. simpl.
      split; [exact Hin |]. split.
      * by apply bson_datetime_ge_cut.
      * by apply bson_datetime_le_cut.
    + intros Hstart Hend doc. rewrite find_sorted_elem. simpl.
      by rewrite Hstart, Hend.
Qed.

Definition alert_at (h : N) (key : string) : DialoutDocument :=
  {| message := <["msg" := VStr "Pump 4 tripped"]> (<["groups" := VList [VStr "ops"]]> ∅);
     idempotency_key := key; service := "telalert"; posted_by := "alice";
     timestamp := mk_datetime 2023 3 1 h 0 0 0 |}.

Definition sample_collection : list DialoutDocument :=
  [alert_at 12 "c"; alert_at 8 "a"; alert_at 10 "b"; alert_at 15 "d"].

Lemma get_alerts_range_witness :
  (get_alerts sample_collection (mk_datetime 2023 3 2 0 0 0 0)
              (mk_datetime 2023 3 1 12 0 0 0) (Some (mk_datetime 2023 3 1 12 0 0 0))).2 = [] /\
  exists docs,
    get_alerts sample_collection (mk_datetime 2023 3 2 0 0 0 0)
               (mk_datetime 2023 3 1 8 0 0 0) (Some (mk_datetime 2023 3 1 12 0 0 0))
      = (Yield (List.map document_row docs),
         [{| q_gte := mk_datetime 2023 3 1 8 0 0 0;
             q_lte := mk_datetime 2023 3 1 12 0 0 0 |}]) /\
    StronglySorted by_timestamp docs.
Proof.
  destruct (get_alerts_range sample_collection (mk_datetime 2023 3 2 0 0 0 0)
                             (mk_datetime 2023 3 1 12 0 0 0)) as (_ & Hbad & _).
  destruct (get_alerts_range sample_collection (mk_datetime 2023 3 2 0 0 0 0)
                             (mk_datetime 2023 3 1 8 0 0 0)) as (_ & _ & Hgood).
  split.
  - rewrite (Hbad (mk_datetime 2023 3 1 12 0 0 0)); reflexivity.
  - destruct (Hgood (mk_datetime 2023 3 1 12 0 0 0)) as (docs & Hrows & Hsorted & _);
      [reflexivity |].
    exists docs. split; assumption.
Defined.

(** An alert held at 09:00:00.999000. *)
Definition alert_before_start : DialoutDocument :=
  {| message := <["msg" := VStr "Pump 4 tripped"]> (<["groups" := VList [VStr "ops"]]> ∅);
     idempotency_key := "e"; service := "telalert"; posted_by := "alice";
     timestamp := mk_datetime 2023 3 1 9 0 0 999000 |}.

(** C8 as stated fails for a start that is not in whole milliseconds: an
    alert held at 09:00:00.999000 is earlier than the start 09:00:00.999001
    and is yielded all the same, the start reaching the collection as
    09:00:00.999000. *)
Lemma get_alerts_yields_before_start :
  get_alerts [alert_before_start] (mk_datetime 2023 3 2 0 0 0 0)
             (mk_datetime 2023 3 1 9 0 0 999001) (Some (mk_datetime 2023 3 1 10 0 0 0))
    = (Yield [("2023-03-01T09:00:00.999000", "alice", "telalert", "e", VNone,
               VList [VStr "ops"], VNone, VStr "Pump 4 tripped")],
       [{| q_gte := mk_datetime 2023 3 1 9 0 0 999001;
           q_lte := mk_datetime 2023 3 1 10 0 0 0 |}]) /\
  dt_ge (timestamp alert_before_start) (mk_datetime 2023 3 1 9 0 0 999001) = false /\
  bson_datetime (timestamp alert_before_start) = timestamp alert_before_start.
Proof. split; [| split]; by vm_compute. Qed.

End TelAlertStreamSpec.

Module PIWebIntegrationSpec.
Import Py PIWebIntegration.

(** [math.ceil(n / m)] for a positive [m]. *)
Definition ceil_div (n m : Z) : Z := (n + m - 1) / m.

Section packing.
Context {Sub : Type} `{Countable Sub}.

(** The [k]-th sequential bin of size [m] over a list. *)
Definition bin (m k : nat) (l : list Sub) : list Sub := take m (drop (k * m) l).

Definition bins (m n : nat) (l : list Sub) : list (gset Sub) :=
  (fun k => list_to_set (bin m k l)) <$> seq 0 n.

Lemma ceil_div_small n m : 1 <= n -> n <= m -> ceil_div n m = 1.
Proof.
  intros Hn Hm. unfold ceil_div. symmetry.
  apply Z.div_unique with (r := n - 1); lia.
Qed.

Lemma ceil_div_step n m : 1 <= m -> ceil_div n m = ceil_div (n - m) m + 1.
Proof.
  intros Hm. unfold ceil_div.
  replace (n + m - 1) with (n - m + m - 1 + 1 * m) by lia.
  rewrite Z.div_add by lia. reflexivity.
Qed.

Lemma ceil_div_nonneg n m : 1 <= m -> 0 <= n -> 0 <= ceil_div n m.
Proof. intros Hm Hn. unfold ceil_div. apply Z.div_pos; lia. Qed.

Lemma bins_cons m n l :
  bins m (S n) l = list_to_set (take m l) :: bins m n (drop m l).
Proof.
  unfold bins, bin. simpl. rewrite drop_0. f_equal.
  rewrite <- fmap_S_seq, <- list_fmap_compose.
  apply list_fmap_ext. intros _ k _. simpl.
  rewrite drop_drop. reflexivity.
Qed.

Lemma create_loop_bins fuel M (subs : list Sub) :
  1 <= M -> subs <> [] -> (length subs <= fuel)%nat ->
  create_loop fuel M subs =
    Some (bins (Z.to_nat M) (Z.to_nat (ceil_div (Z.of_nat (length subs)) M)) subs).
Proof.
  intros HM. revert subs.
  induction fuel as [| fuel IH]; intros subs Hne Hlen.
  - destruct subs; [congruence | simpl in Hlen; lia].
  - assert (1 <= Z.of_nat (length subs)) as HN
        by (destruct subs; [congruence | simpl; lia]).
    simpl. destruct (Z.leb_spec (Z.of_nat (length subs)) M) as [Hle | Hgt].
    + rewrite ceil_div_small by lia.
      change (Z.to_nat 1) with 1%nat. rewrite bins_cons.
      rewrite take_ge by lia. reflexivity.
    + unfold del_slice_to, slice_to.
      destruct (Z.leb_spec 0 M) as [_ | ?]; [| lia].
      assert (length (drop (Z.to_nat M) subs) = (length subs - Z.to_nat M)%nat) as Hd
          by apply length_drop.
      rewrite IH.
      * rewrite (ceil_div_step (Z.of_nat (length subs)) M) by lia.
        rewrite Hd.
        replace (Z.of_nat (length subs - Z.to_nat M)) with (Z.of_nat (length subs) - M)
          by lia.
        rewrite Z2Nat.inj_add by (try apply ceil_div_nonneg; lia).
        change (Z.to_nat 1) with 1%nat. rewrite Nat.add_1_r, bins_cons.
        reflexivity.
      * intros Hnil. rewrite Hnil in Hd. simpl in Hd. lia.
      * rewrite Hd. lia.
Qed.

Lemma bin_size m k (l : list Sub) :
  NoDup l -> size (list_to_set (C := gset Sub) (bin m k l)) = (m `min` (length l - k * m))%nat.
Proof.
  intros Hnd. rewrite size_list_to_set.
  - unfold bin. rewrite length_take, length_drop. reflexivity.
  - unfold bin. eapply sublist_NoDup; [exact Hnd |].
    transitivity (drop (k * m) l); [apply sublist_take | apply sublist_drop].
Qed.

Lemma bins_sizes m n (l : list Sub) :
  NoDup l ->
  size <$> bins m n l = (fun k => m `min` (length l - k * m))%nat <$> seq 0 n.
Proof.
  intros Hnd. unfold bins. rewrite <- list_fmap_compose.
  apply list_fmap_ext. intros _ k _. simpl. by apply bin_size.
Qed.

Lemma ceil_div_zero m : 1 <= m -> ceil_div 0 m = 0.
Proof. intros Hm. unfold ceil_div. apply Z.div_small. lia. Qed.

Lemma length_bins m n (l : list Sub) : length (bins m n l) = n.
Proof. unfold bins. by rewrite length_fmap, length_seq. Qed.

(** C5. Connection creation, given a capacity M of at least one and the
    list that a caller hands to it, which is never empty, ends and creates
    exactly ceil(N/M) connections, the k-th one started with the k-th
    sequential bin of size M over the list; when the subscriptions are
    distinct the k-th connection holds min(M, N - k*M) of them, which for
    N = 65 and M = 30 is 30, 30 and 5. For [subscribe] this holds for every
    number N of new subscriptions within the capacity of the integration,
    zero included: the new subscriptions, in the order in which they are
    listed, are packed into ceil(N/M) sequential bins, one connection each,
    and these connections are the ones added when they all start. *)
Theorem create_connections_sequential_bins started fuel :
  (forall M (subs : list Sub),
     1 <= M -> subs <> [] -> (length subs <= fuel)%nat ->
     exists c,
       _create_connections started fuel M subs = Some c /\
       Z.of_nat (length (connections c)) = ceil_div (Z.of_nat (length subs)) M /\
       connections c = bins (Z.to_nat M) (length (connections c)) subs /\
       (NoDup subs ->
          size <$> connections c =
            (fun k => Z.to_nat M `min` (length subs - k * Z.to_nat M))%nat
              <$> seq 0 (length (connections c))) /\
       (NoDup subs -> length subs = 65%nat -> M = 30 ->
          size <$> connections c = [30; 30; 5]%nat) /\
       (forallb started (connections c) = true -> returned c = Some (connections c))) /\
  (forall self (requested : gset Sub),
     closed self = false ->
     1 <= _max_subscriptions self ->
     Z.of_nat (size (requested ∖ subscribed self)) <= capacity self ->
     (size (requested ∖ subscribed self) <= fuel)%nat ->
     exists conns,
       subscribe started fuel self requested
         = (if forallb started conns then Returned true conns else Returned false []) /\
       Z.of_nat (length conns)
         = ceil_div (Z.of_nat (size (requested ∖ subscribed self)))
                    (_max_subscriptions self) /\
       conns = bins (Z.to_nat (_max_subscriptions self)) (length conns)
                    (elements (requested ∖ subscribed self)) /\
       size <$> conns =
         (fun k => Z.to_nat (_max_subscriptions self)
                     `min` (size (requested ∖ subscribed self)
                            - k * Z.to_nat (_max_subscriptions self)))%nat
           <$> seq 0 (length conns) /\
       (size (requested ∖ subscribed self) = 65%nat -> _max_subscriptions self = 30 ->
          size <$> conns = [30; 30; 5]%nat) /\
       (elements (requested ∖ subscribed self) <> [] ->
          exists c,
            _create_connections started fuel (_max_subscriptions self)
                                (elements (requested ∖ subscribed self)) = Some c /\
            connections c = conns)).
Proof.
  split.
  - intros M subs HM Hne Hfuel.
    unfold _create_connections. rewrite create_loop_bins by assumption.
    set (n := Z.to_nat (ceil_div (Z.of_nat (length subs)) M)).
    eexists. split; [reflexivity |]. simpl.
    rewrite length_bins.
    split; [| split; [reflexivity | split; [| split]]].
    + subst n. rewrite Z2Nat.id; [reflexivity |].
      apply ceil_div_nonneg; lia.
    + intros Hnd. by apply bins_sizes.
    + intros Hnd H65 ->. rewrite bins_sizes by assumption.
      subst n. rewrite H65. reflexivity.
    + intros ->. reflexivity.
  - intros self requested Hopen HM Hcap Hfuel.
    unfold subscribe. rewrite Hopen.
    unfold size, set_size in *. simpl in *.
    pose proof (NoDup_elements (requested ∖ subscribed self)) as Hnd.
    destruct (elements (requested ∖ subscribed self)) as [| s new] eqn:E.
    + exists []. simpl. rewrite ceil_div_zero by assumption.
      repeat split; [discriminate | congruence].
    + rewrite <- E in *.
      assert (elements (requested ∖ subscribed self) <> []) as Hne
          by (rewrite E; discriminate).
      destruct (Z.leb_spec (Z.of_nat (length (elements (requested ∖ subscribed self))))
                           (capacity self)) as [_ | ?];
        [| unfold capacity in *; simpl in *; lia].
      unfold _create_connections.
      rewrite create_loop_bins by assumption. simpl.
      set (n := Z.to_nat (ceil_div (Z.of_nat (length (elements (requested ∖ subscribed self))))
                                   (_max_subscriptions self))).
      exists (bins (Z.to_nat (_max_subscriptions self)) n
                   (elements (requested ∖ subscribed self))).
      rewrite length_bins.
      split; [by destruct (forallb started _) |].
      split; [subst n; rewrite Z2Nat.id; [reflexivity | apply ceil_div_nonneg; lia] |].
      split; [reflexivity |].
      split; [by apply bins_sizes |].
      split; [| intros _; by eexists].
      intros H65 H30. rewrite bins_sizes by assumption.
      subst n. rewrite H65, H30. reflexivity.
Qed.

End packing.

Definition empty_pool : integration (Sub := nat) :=
  {| closed := false; subscribed := ∅; _max_capacity := 100; _max_subscriptions := 30 |}.

Lemma create_connections_sequential_bins_witness :
  (exists c,
     _create_connections (fun _ => true) 65 30 (seq 0 65) = Some c /\
     size <$> connections c = [30; 30; 5]%nat) /\
  (exists conns,
     subscribe (fun _ => true) 65 empty_pool (list_to_set (seq 0 65)) = Returned true conns /\
     size <$> conns = [30; 30; 5]%nat).
Proof.
  destruct (create_connections_sequential_bins (Sub := nat) (fun _ => true) 65)
    as [Hcreate Hsubscribe].
  split.
  - destruct (Hcreate 30 (seq 0 65)) as (c & Hc & _ & _ & _ & Hsizes & _).
    + lia.
    + discriminate.
    + vm_compute. lia.
    + exists c. split; [exact Hc |].
      apply Hsizes; [apply NoDup_seq | reflexivity | reflexivity].
  - destruct (Hsubscribe empty_pool (list_to_set (seq 0 65)))
      as (conns & Hrun & _ & _ & _ & Hsizes & _).
    + reflexivity.
    + simpl. lia.
    + by vm_compute.
    + vm_compute. lia.
    + exists conns. split; [| apply Hsizes; by vm_compute].
      rewrite Hrun.
      assert (forallb (fun _ : gset nat => true) conns = true) as ->
          by (by apply forallb_forall).
      reflexivity.
Defined.

(** Off the callers' path: on the empty list, which neither [subscribe]
    nor [unsubscribe] hands over, the loop is entered once and one
    connection without a subscription is created. *)
Lemma create_connections_empty_list :
  create_loop (Sub := nat) 1 30 [] = Some [∅].
Proof. reflexivity. Qed.

End PIWebIntegrationSpec.

Module DiscoverySpec.
Import Py Discovery.

Lemma faster_is_smaller a b hA hB :
  (b < a)%Q -> tuple_ltb (Finite b, hB) (Finite a, hA) = true.
Proof.
  intros Hlt. unfold tuple_ltb. simpl.
  destruct (Qeq_bool b a) eqn:E.
  - apply Qeq_bool_iff in E. rewrite E in Hlt. by apply Qlt_irrefl in Hlt.
  - destruct (Qle_bool a b) eqn:L; [| reflexivity].
    apply Qle_bool_iff in L. exfalso. by apply (Qlt_not_le _ _ Hlt).
Qed.

Lemma unreachable_is_largest x h h' : tuple_ltb (Finite x, h) (Inf, h') = true.
Proof. reflexivity. Qed.

Lemma not_stays_before x y : tuple_ltb y x = true -> ~ stays_before x y.
Proof. unfold stays_before. intros ->. simpl. tauto. Qed.

Lemma rtt_ltb_asym a b : rtt_ltb a b = true -> rtt_ltb b a = false.
Proof.
  destruct a as [x |], b as [y |]; simpl; try congruence.
  intros Hlt. apply negb_true_iff in Hlt. apply negb_false_iff.
  apply Qle_bool_iff. apply Qlt_le_weak, Qnot_le_lt.
  intros Hle. apply Qle_bool_iff in Hle. congruence.
Qed.

Lemma rtt_eqb_sym a b : rtt_eqb a b = rtt_eqb b a.
Proof. destruct a, b; simpl; try reflexivity. apply Qeq_bool_comm. Qed.

Lemma string_ltb_asym s1 s2 : String.ltb s1 s2 = true -> String.ltb s2 s1 = false.
Proof.
  unfold String.ltb. rewrite (String.compare_antisym s2 s1).
  by destruct (String.compare s1 s2).
Qed.

Lemma tuple_ltb_asym a b : tuple_ltb a b = true -> tuple_ltb b a = false.
Proof.
  unfold tuple_ltb. rewrite (rtt_eqb_sym b.1 a.1).
  destruct (rtt_eqb a.1 b.1); [apply string_ltb_asym | apply rtt_ltb_asym].
Qed.

#[local] Instance stays_before_total : Total stays_before.
Proof.
  intros a b. unfold stays_before.
  destruct (tuple_ltb b a) eqn:E; simpl; [right | left; exact I].
  rewrite (tuple_ltb_asym _ _ E). exact I.
Qed.

(** The ranking in general: a rearrangement of the measured hosts in which
    no host is followed by a smaller one. *)
Lemma sorted_Sorted l : Sorted stays_before (sorted l).
Proof. apply Sorted_merge_sort, _. Qed.

Lemma sorted_Permutation l : sorted l ≡ₚ l.
Proof. apply merge_sort_Permutation. Qed.

Lemma sorted_three a b hA hB hC :
  (b < a)%Q ->
  sorted [(Finite a, hA); (Finite b, hB); (Inf, hC)]
    = [(Finite b, hB); (Finite a, hA); (Inf, hC)].
Proof.
  intros Hlt. unfold sorted, merge_sort.
  cbn [merge_sort_aux merge_list_to_stack merge_stack].
  rewrite (list_merge_cons _ (Finite a, hA) (Finite b, hB)).
  rewrite decide_False by (apply not_stays_before, faster_is_smaller, Hlt).
  rewrite !list_merge_nil_r, list_merge_cons.
  rewrite decide_False by (apply not_stays_before, unreachable_is_largest).
  rewrite list_merge_cons.
  rewrite decide_False by (apply not_stays_before, unreachable_is_largest).
  rewrite list_merge_nil_r. reflexivity.
Qed.

(** C4 (as amended). When the listing names three hosts, of which the
    second answers faster than the first and the third cannot be reached,
    discovery returns them in ascending order of mean round-trip time with
    the unreachable host last, cut to [limit] entries: all three hosts
    under the default limit of 3, and the two reachable hosts only under a
    limit of 2. *)
Theorem discover_ranks_unreachable_last connect domain stdout attempts hA hB hC a b :
  list_domain_controllers stdout = [hA; hB; hC] ->
  get_rtt (connect hA) attempts = Rtt (Finite a) ->
  get_rtt (connect hB) attempts = Rtt (Finite b) ->
  get_rtt (connect hC) attempts = Rtt Inf ->
  (b < a)%Q ->
  (forall limit,
      discover_domain_controllers connect "win32" domain stdout attempts limit
        = Hosts (slice_to limit [hB; hA; hC])) /\
  discover_domain_controllers connect "win32" domain stdout attempts default_limit
    = Hosts [hB; hA; hC] /\
  discover_domain_controllers connect "win32" domain stdout attempts 2
    = Hosts [hB; hA].
Proof.
  intros Hhosts HA HB HC Hlt.
  assert (forall limit,
      discover_domain_controllers connect "win32" domain stdout attempts limit
        = Hosts (slice_to limit [hB; hA; hC])) as Hall.
  { intros limit. unfold discover_domain_controllers. simpl.
    rewrite Hhosts. simpl. rewrite HA, HB, HC. simpl.
    rewrite sorted_three by assumption. reflexivity. }
  split; [exact Hall |]. split; rewrite Hall; reflexivity.
Qed.

(** The three hosts of the example: 50 ms, 10 ms, and no answer. *)
Definition example_connect (host : string) (i : nat) : option Q :=
  if String.eqb host "hostA.corp.local" then Some (50 # 1000)%Q
  else if String.eqb host "hostB.corp.local" then Some (10 # 1000)%Q
  else None.

Definition example_stdout : list string :=
  [ "    hostA.corp.local [PDC]  [DS] Site: Main";
    "    hostB.corp.local        [DS] Site: Main";
    "    hostC.corp.local        [DS] Site: Main";
    "The command completed successfully" ].

Lemma discover_ranks_unreachable_last_witness :
  discover_domain_controllers example_connect "win32" "CORP" example_stdout
                              default_mean_rtt_attempts default_limit
    = Hosts ["hostB.corp.local"; "hostA.corp.local"; "hostC.corp.local"].
Proof.
  apply (discover_ranks_unreachable_last example_connect "CORP" example_stdout
           default_mean_rtt_attempts
           "hostA.corp.local" "hostB.corp.local" "hostC.corp.local"
           (mean [50 # 1000; 50 # 1000; 50 # 1000])
           (mean [10 # 1000; 10 # 1000; 10 # 1000]))%Q;
    reflexivity.
Defined.

(** C4 as stated fails: under the default parameters the unreachable host
    is part of the returned list. *)
Lemma discover_keeps_unreachable_host :
  discover_domain_controllers example_connect "win32" "CORP" example_stdout
                              default_mean_rtt_attempts default_limit
    <> Hosts ["hostB.corp.local"; "hostA.corp.local"].
Proof. vm_compute. discriminate. Qed.

End DiscoverySpec.

Module AuthSpec.
Import Py Auth.

(** The client after [k] rotations. *)
Definition rotated (k : nat) (cl : ActiveDirectoryClient) : ActiveDirectoryClient :=
  Nat.iter k rotate cl.

Lemma rotated_S k cl : rotated (S k) cl = rotated k (rotate cl).
Proof. unfold rotated. apply Nat.iter_succ_r. Qed.

#[global] Opaque rotated.

Section backend.
Variable validate : string -> option string.
Variable get_user : nat -> ActiveDirectoryClient -> string -> get_user_outcome.

Definition ldap_error_at (made k : nat) (cl : ActiveDirectoryClient) (username : string)
  : Prop :=
  exists d, get_user (made + k) (rotated k cl) username = Raises (LDAPError d).

Lemma lookup_loop_attempts remaining made cl username :
  (attempts (lookup_loop get_user remaining made cl username) <= made + remaining)%nat.
Proof.
  revert made cl. induction remaining as [| remaining IH]; intros made cl; simpl.
  - lia.
  - destruct (get_user made cl username) as [user | [d | d | d]]; simpl; try lia.
    specialize (IH (S made) (rotate cl)). lia.
Qed.

(** After [k] protocol-level failures the loop goes on with the client
    rotated [k] times. *)
Lemma lookup_loop_skip k remaining made cl username :
  (forall j, (j < k)%nat -> ldap_error_at made j cl username) ->
  lookup_loop get_user (k + remaining) made cl username
    = lookup_loop get_user remaining (made + k) (rotated k cl) username.
Proof.
  revert made cl. induction k as [| k IH]; intros made cl Hfail.
  - simpl. rewrite Nat.add_0_r. reflexivity.
  - destruct (Hfail 0%nat ltac:(lia)) as [d Hd].
    rewrite Nat.add_0_r in Hd. change (rotated 0 cl) with cl in Hd.
    rewrite rotated_S.
    change (S k + remaining)%nat with (S (k + remaining)).
    simpl lookup_loop. rewrite Hd.
    rewrite IH.
    + replace (S made + k)%nat with (made + S k)%nat by lia. reflexivity.
    + intros j Hj. destruct (Hfail (S j) ltac:(lia)) as [d' Hd'].
      exists d'. rewrite rotated_S in Hd'.
      replace (S made + j)%nat with (made + S j)%nat by lia. exact Hd'.
Qed.

(** C6. With a bearer token that the handler accepts, the backend makes at
    most [len(client)] lookups. After each protocol-level failure it
    rotates the client and tries again; the first lookup that succeeds
    gives the credentials built from the user's scopes, with the user; the
    first failure with any other exception raises the authentication error
    that wraps it; and when every one of the [len(client)] lookups fails
    at protocol level the authentication error reports that the directory
    cannot be reached. *)
Theorem authenticate_rotates_and_retries cl authorization scheme token username :
  authorization <> "" ->
  get_authorization_scheme_param authorization = (scheme, token) ->
  lower scheme = "bearer" ->
  validate token = Some username ->
  let r := authenticate validate get_user cl (Some authorization) in
  (attempts r <= len cl)%nat /\
  (forall k, (k < len cl)%nat ->
     (forall j, (j < k)%nat -> ldap_error_at 0 j cl username) ->
     (forall user,
         get_user k (rotated k cl) username = User user ->
         outcome r = Return_credentials (elements (scopes user)) user /\
         attempts r = S k /\ client r = rotated k cl) /\
     (forall d,
         get_user k (rotated k cl) username = Raises (OtherException d) ->
         outcome r = Raise_AuthenticationError "An unhandled error occurred."
                       (Some (OtherException d)) /\
         attempts r = S k)) /\
  ((forall j, (j < len cl)%nat -> ldap_error_at 0 j cl username) ->
   outcome r = Raise_AuthenticationError
                 "Unable to communicate with active directory server." None /\
   attempts r = len cl /\ client r = rotated (len cl) cl).
Proof.
  intros Hne Hparse Hscheme Hvalid r.
  assert (r = lookup_loop get_user (len cl) 0 cl username) as ->.
  { subst r. unfold authenticate.
    destruct authorization as [| c rest]; [congruence |].
    rewrite Hparse, Hscheme, Hvalid. reflexivity. }
  split; [apply (lookup_loop_attempts (len cl) 0) |]. split.
  - intros k Hk Hfail.
    replace (len cl) with (k + S (len cl - S k))%nat by lia.
    rewrite (lookup_loop_skip k _ 0 cl username Hfail). simpl.
    split.
    + intros user ->. repeat split.
    + intros d ->. repeat split.
  - intros Hfail.
    assert (lookup_loop get_user (len cl) 0 cl username
            = lookup_loop get_user 0 (0 + len cl) (rotated (len cl) cl) username) as ->.
    { rewrite <- (lookup_loop_skip (len cl) 0 0 cl username Hfail).
      f_equal. lia. }
    simpl. repeat split.
Qed.

End backend.

Definition alice : ActiveDirectoryUser :=
  {| scopes := {["operators"]}; username := "alice";
     first_name := "Alice"; last_name := "Liddell";
     email := Some "alice@corp.local"; upi := None;
     company := None; country := None |}.

Definition two_controllers : ActiveDirectoryClient :=
  {| _controllers := ["ldap://dc1.corp.local"; "ldap://dc2.corp.local"];
     _bases := ["DC=corp,DC=local"; "DC=corp,DC=local"] |}.

(** The first controller is down, the second one answers. *)
Definition first_down (i : nat) (cl : ActiveDirectoryClient) (name : string)
  : get_user_outcome :=
  match _controllers cl with
  | url :: _ =>
      if String.eqb url "ldap://dc1.corp.local"
      then Raises (LDAPError "connection error")
      else User alice
  | [] => Raises (OtherException "IndexError")
  end.

Definition accept_any (token : string) : option string := Some "alice".

Lemma authenticate_rotates_and_retries_witness :
  outcome (authenticate accept_any first_down two_controllers (Some "Bearer abc"))
    = Return_credentials ["operators"] alice /\
  attempts (authenticate accept_any first_down two_controllers (Some "Bearer abc"))
    = 2%nat.
Proof.
  destruct (authenticate_rotates_and_retries accept_any first_down two_controllers
              "Bearer abc" "Bearer" "abc" "alice")
    as (_ & Hk & _); try reflexivity; [discriminate |].
  destruct (Hk 1%nat) as [Huser _].
  - unfold len. simpl. lia.
  - intros j Hj. assert (j = 0%nat) as -> by lia.
    exists "connection error". reflexivity.
  - destruct (Huser alice) as (Ho & Ha & _); [reflexivity |].
    split; [exact Ho | exact Ha].
Defined.

End AuthSpec.

Module PIWebFramesSpec.
Import Py PIWebModels PIWebConnection PIWebFrames PySpec.

(** Ascending order of timestamp on sub items. *)
Definition not_later (a b : PIWebMessageSubItem) : Prop :=
  dt_le (timestamp a) (timestamp b) = true.

(** The sub items stamped exactly [t]. *)
Definition stamped (t : datetime) (x : PIWebMessageSubItem) : bool :=
  match dt_compare (timestamp x) t with Eq => true | _ => false end.

Lemma lex_compare_eq a b : lex_compare a b = Eq -> a = b.
Proof.
  revert b. induction a as [| x a IH]; intros [| y b]; simpl; try congruence.
  destruct (N.compare_spec x y) as [-> | _ | _]; try congruence.
  intros Hab. f_equal. by apply IH.
Qed.

Lemma stamped_not_before t x y :
  stamped t x = true -> stamped t y = true -> dt_lt (timestamp y) (timestamp x) = false.
Proof.
  unfold stamped, dt_lt, dt_compare. intros Hx Hy.
  destruct (lex_compare (dt_fields (timestamp x)) (dt_fields t)) eqn:Ex; try discriminate.
  destruct (lex_compare (dt_fields (timestamp y)) (dt_fields t)) eqn:Ey; try discriminate.
  apply lex_compare_eq in Ex, Ey. rewrite Ex, Ey, lex_compare_refl. reflexivity.
Qed.

#[local] Instance not_later_trans : Transitive not_later.
Proof. intros a b c. unfold not_later. apply dt_le_trans. Qed.

Lemma insert_item_perm x l : insert_item x l ≡ₚ x :: l.
Proof.
  induction l as [| y rest IH]; simpl; [reflexivity |].
  destruct (dt_lt (timestamp y) (timestamp x)); [| reflexivity].
  rewrite IH. apply Permutation_swap.
Qed.

Lemma insert_item_HdRel y x l :
  not_later y x -> HdRel not_later y l -> HdRel not_later y (insert_item x l).
Proof.
  intros Hyx Hl. destruct l as [| z rest]; simpl; [by constructor |].
  destruct (dt_lt (timestamp z) (timestamp x)); constructor; [| exact Hyx].
  by inversion Hl.
Qed.

Lemma insert_item_Sorted x l : Sorted not_later l -> Sorted not_later (insert_item x l).
Proof.
  induction l as [| y rest IH]; simpl; intros Hs.
  - repeat constructor.
  - inversion Hs as [| ? ? Hrest Hhd]; subst.
    destruct (dt_lt (timestamp y) (timestamp x)) eqn:E.
    + constructor; [by apply IH |].
      apply insert_item_HdRel; [| exact Hhd].
      unfold not_later. rewrite dt_le_not_gt. rewrite dt_lt_gt in E.
      unfold dt_gt in *. rewrite (dt_compare_antisym (timestamp x) (timestamp y)).
      by destruct (dt_compare (timestamp x) (timestamp y)).
    + constructor; [exact Hs |]. constructor.
      unfold not_later. by rewrite dt_le_not_gt, <- dt_lt_gt, E.
Qed.

Lemma insert_item_stamped t x l :
  List.filter (stamped t) (insert_item x l) = List.filter (stamped t) (x :: l).
Proof.
  induction l as [| y rest IH]; [reflexivity |].
  simpl insert_item. destruct (dt_lt (timestamp y) (timestamp x)) eqn:E; [| reflexivity].
  change (List.filter (stamped t) (y :: insert_item x rest))
    with (if stamped t y then y :: List.filter (stamped t) (insert_item x rest)
          else List.filter (stamped t) (insert_item x rest)).
  rewrite IH. simpl.
  destruct (stamped t y) eqn:Ey, (stamped t x) eqn:Ex; try reflexivity.
  rewrite (stamped_not_before t x y Ex Ey) in E. discriminate.
Qed.

(** X1. Sorting the sub items of an item rearranges them in ascending order
    of timestamp and keeps the samples that carry the same timestamp in the
    order in which they arrived. *)
Theorem sort_items_stable l :
  _sort_items l ≡ₚ l /\
  StronglySorted not_later (_sort_items l) /\
  (forall t, List.filter (stamped t) (_sort_items l) = List.filter (stamped t) l).
Proof.
  split; [| split].
  - induction l as [| x l IH]; simpl; [reflexivity |].
    rewrite insert_item_perm. by constructor.
  - apply Sorted_StronglySorted; [apply _ |].
    induction l as [| x l IH]; simpl; [constructor |].
    by apply insert_item_Sorted.
  - intros t. induction l as [| x l IH]; [reflexivity |].
    simpl _sort_items. rewrite insert_item_stamped. simpl. by rewrite IH.
Qed.

Lemma validate_list_Parsed {A B} (f : A -> parsed B) l bs :
  validate_list f l = Parsed bs -> Forall2 (fun a b => f a = Parsed b) l bs.
Proof.
  revert bs. induction l as [| x rest IH]; simpl; intros bs.
  - intros [= <-]. constructor.
  - destruct (f x) as [b | |] eqn:Ex.
    + destruct (validate_list f rest) as [bs' | |]; try discriminate.
      intros [= <-]. constructor; [exact Ex | by apply IH].
    + by destruct (validate_list f rest).
    + discriminate.
Qed.

Section frames.
Variable isoparse : string -> option datetime.

(** X2. The quality flag decides the published value: a sample that is not
    good is published with the value None whatever the frame held, a good
    sample with a plain value keeps it, and a good sample with a compound
    value is published with that value's "Name" entry. *)
Theorem published_value_follows_quality raw it :
  PIWebMessageSubItem_init isoparse raw = Parsed it ->
  Good raw = Some (good it) /\
  (good it = false -> subitem_dict it !! "value" = Some VNone) /\
  (good it = true -> (forall d, Value raw <> VDict d) ->
     subitem_dict it !! "value" = Some (Value raw)) /\
  (good it = true -> forall d, Value raw = VDict d ->
     exists n, In ("Name", n) d /\ subitem_dict it !! "value" = Some n).
Proof.
  unfold PIWebMessageSubItem_init. intros Hinit.
  destruct (Good raw) as [g |] eqn:Eg.
  2:{ destruct (_format_content (Value raw) false); [| discriminate].
      by destruct (_parse_timestamp isoparse (Timestamp raw)). }
  destruct (_format_content (Value raw) g) as [v |] eqn:Ef; [| discriminate].
  destruct (_parse_timestamp isoparse (Timestamp raw)) as [t |]; [| discriminate].
  injection Hinit as <-. simpl.
  rewrite PIWebModelsSpec.subitem_dict_lookup_value. simpl.
  unfold _format_content in Ef.
  split; [reflexivity |]. split; [| split].
  - intros ->. simpl in Ef. congruence.
  - intros -> Hplain. simpl in Ef.
    destruct (Value raw) as [| | | | | | d];
      first [congruence | by destruct (Hplain d)].
  - intros -> d Hd. rewrite Hd in Ef. simpl in Ef.
    destruct (List.find (fun kv => String.eqb (fst kv) "Name") d) as [[k n] |] eqn:Efind;
      [| discriminate].
    injection Ef as <-. exists n. split; [| reflexivity].
    apply find_some in Efind as [Hin Hk]. simpl in Hk.
    apply String.eqb_eq in Hk. by subst k.
Qed.

(** A validated item carries the WebId of the raw item and exactly its
    validated samples, in ascending order of timestamp. *)
Theorem item_holds_sorted_samples raw item :
  PIWebMessageItem_init isoparse raw = Parsed item ->
  item_web_id item = WebId raw /\
  StronglySorted not_later (items item) /\
  exists samples,
    Forall2 (fun r it => PIWebMessageSubItem_init isoparse r = Parsed it)
            (Items raw) samples /\
    items item ≡ₚ samples.
Proof.
  unfold PIWebMessageItem_init. intros Hinit.
  destruct (validate_list (PIWebMessageSubItem_init isoparse) (Items raw))
    as [samples | |] eqn:Ev; try discriminate.
  injection Hinit as <-. simpl.
  split; [reflexivity |]. split; [apply sort_items_stable |].
  exists samples. split; [by apply validate_list_Parsed | apply sort_items_stable].
Qed.

(** X3. A frame in which one sample of one item does not validate is
    dropped as a whole: nothing of it is published, and the connection goes
    on. *)
Theorem invalid_sample_drops_frame index raw ri rs :
  ri ∈ raw -> rs ∈ Items ri ->
  (forall it, PIWebMessageSubItem_init isoparse rs <> Parsed it) ->
  on_frame isoparse index raw = ([], true).
Proof.
  intros Hri Hrs Hbad. unfold on_frame, PIWebMessage_init.
  destruct (validate_list (PIWebMessageItem_init isoparse) raw) as [its | |] eqn:Ev;
    try reflexivity.
  exfalso. apply validate_list_Parsed in Ev.
  apply list_elem_of_lookup in Hri as [i Hi].
  destruct (Forall2_lookup_l _ _ _ _ _ Ev Hi) as (item & _ & Hitem).
  unfold PIWebMessageItem_init in Hitem.
  destruct (validate_list (PIWebMessageSubItem_init isoparse) (Items ri))
    as [samples | |] eqn:Es; try discriminate.
  apply validate_list_Parsed in Es.
  apply list_elem_of_lookup in Hrs as [j Hj].
  destruct (Forall2_lookup_l _ _ _ _ _ Es Hj) as (it & _ & Hit).
  exact (Hbad it Hit).
Qed.

End frames.

Definition bad_sample : raw_subitem :=
  {| Timestamp := VInt 1670594796; Value := VInt 3; Good := Some true |}.

Definition good_sample : raw_subitem :=
  {| Timestamp := VStr "2022-12-09T14:06:36Z"; Value := VInt 50; Good := Some false |}.

(** A parser that knows the one timestamp of the examples. *)
Definition parse_example (s : string) : option datetime :=
  if String.eqb s "2022-12-09T14:06:36Z" then Some (mk_datetime 2022 12 9 14 6 36 0)
  else None.

Lemma published_value_follows_quality_witness :
  subitem_dict {| timestamp := mk_datetime 2022 12 9 14 6 36 0;
                  value := VNone; good := false |} !! "value" = Some VNone.
Proof.
  destruct (published_value_follows_quality parse_example good_sample
              {| timestamp := mk_datetime 2022 12 9 14 6 36 0;
                 value := VNone; good := false |})
    as (_ & Hnone & _); [reflexivity |].
  apply Hnone. reflexivity.
Defined.

Lemma item_holds_sorted_samples_witness :
  item_web_id {| item_name := "AIC681059.PV"; item_web_id := "F1DP";
                 items := [{| timestamp := mk_datetime 2022 12 9 14 6 36 0;
                              value := VNone; good := false |}] |} = "F1DP".
Proof.
  apply (item_holds_sorted_samples parse_example
           {| Name := "AIC681059.PV"; WebId := "F1DP"; Items := [good_sample] |}).
  reflexivity.
Defined.

Lemma invalid_sample_drops_frame_witness :
  on_frame parse_example ∅
           [ {| Name := "AIC681059.PV"; WebId := "F1DP";
                Items := [good_sample; bad_sample] |} ] = ([], true).
Proof.
  apply (invalid_sample_drops_frame parse_example ∅ _
           {| Name := "AIC681059.PV"; WebId := "F1DP";
              Items := [good_sample; bad_sample] |} bad_sample).
  - left.
  - right. left.
  - intros it. discriminate.
Defined.

End PIWebFramesSpec.

Module PIWebIndexSpec.
Import Py PIWebModels PIWebConnection PIWebFrames.

Definition add_to_index (index : gmap string PIWebSubscription) (s : PIWebSubscription)
  : gmap string PIWebSubscription := <[web_id s := s]> index.

Lemma index_lookup_origin subs acc w s :
  foldl add_to_index acc subs !! w = Some s ->
  (s ∈ subs /\ web_id s = w) \/ acc !! w = Some s.
Proof.
  revert acc. induction subs as [| x rest IH]; simpl; intros acc Hl; [by right |].
  destruct (IH _ Hl) as [[Hin Hw] | Hacc].
  - left. split; [by right | exact Hw].
  - unfold add_to_index in Hacc.
    destruct (decide (web_id x = w)) as [<- | Hne].
    + rewrite lookup_insert_eq in Hacc. injection Hacc as <-.
      left. split; [left | reflexivity].
    + rewrite lookup_insert_ne in Hacc by exact Hne. by right.
Qed.

Lemma index_lookup_absent subs acc w :
  w ∉ web_id <$> subs -> foldl add_to_index acc subs !! w = acc !! w.
Proof.
  revert acc. induction subs as [| x rest IH]; simpl; intros acc Hw; [reflexivity |].
  rewrite IH by (intros Hin; apply Hw; by right).
  unfold add_to_index. apply lookup_insert_ne.
  intros Heq. apply Hw. rewrite Heq. left.
Qed.

Lemma index_lookup_member subs acc s :
  NoDup (web_id <$> subs) -> s ∈ subs ->
  foldl add_to_index acc subs !! web_id s = Some s.
Proof.
  revert acc. induction subs as [| x rest IH]; simpl; intros acc Hnd Hin.
  - inversion Hin.
  - apply NoDup_cons in Hnd as [Hx Hrest].
    apply elem_of_cons in Hin as [-> | Hin].
    + rewrite index_lookup_absent by exact Hx.
      unfold add_to_index. apply lookup_insert_eq.
    + by apply IH.
Qed.

(** X4. The index built for a connection maps a WebId to a subscription of
    the connection that carries this WebId, and to nothing else; when the
    WebIds of the subscriptions are distinct, every subscription is found
    under its own WebId. *)
Theorem build_index_round_trip subs :
  (forall w s, build_index subs !! w = Some s -> s ∈ subs /\ web_id s = w) /\
  (forall w, w ∉ web_id <$> subs -> build_index subs !! w = None) /\
  (NoDup (web_id <$> subs) ->
   forall s, s ∈ subs -> build_index subs !! web_id s = Some s).
Proof.
  unfold build_index. split; [| split].
  - intros w s Hl.
    destruct (index_lookup_origin subs ∅ w s Hl) as [? | Hempty]; [assumption |].
    rewrite lookup_empty in Hempty. discriminate.
  - intros w Hw.
    rewrite (index_lookup_absent subs ∅ w Hw). apply lookup_empty.
  - intros Hnd s Hin. by apply (index_lookup_member subs ∅ s).
Qed.

Lemma publish_items_all index data :
  (forall item, item ∈ data -> is_Some (index !! item_web_id item)) ->
  exists msgs,
    publish_items index data = (msgs, true) /\
    Forall2 (fun item m =>
               index !! item_web_id item = Some (subscription m) /\
               published_items m = List.map subitem_dict (items item))
            data msgs.
Proof.
  induction data as [| item rest IH]; simpl; intros Hall.
  - exists []. split; [reflexivity | constructor].
  - destruct (Hall item ltac:(left)) as [sub Hsub]. rewrite Hsub.
    destruct IH as (msgs & Hmsgs & Hall2); [intros i Hi; apply Hall; by right |].
    rewrite Hmsgs. eexists. split; [reflexivity |].
    constructor; [| exact Hall2]. simpl. by split.
Qed.

(** X5. When every item of a frame carries the WebId of a subscription of
    the connection, and these WebIds are distinct, the frame is published
    item by item, in the order of the frame: one message per item, under
    the subscription with the item's WebId, holding the dictionaries of the
    item's samples. *)
Theorem frame_published_item_by_item subs data :
  NoDup (web_id <$> subs) ->
  (forall item, item ∈ message_items data ->
     exists s, s ∈ subs /\ web_id s = item_web_id item) ->
  exists msgs,
    publish_frame (build_index subs) data = (msgs, true) /\
    Forall2 (fun item m =>
               subscription m ∈ subs /\
               web_id (subscription m) = item_web_id item /\
               published_items m = List.map subitem_dict (items item))
            (message_items data) msgs.
Proof.
  intros Hnd Hall. unfold publish_frame.
  destruct (build_index_round_trip subs) as (Horigin & _ & Hmember).
  destruct (publish_items_all (build_index subs) (message_items data))
    as (msgs & Hmsgs & Hall2).
  - intros item Hitem. destruct (Hall item Hitem) as (s & Hs & Hw).
    exists s. rewrite <- Hw. by apply Hmember.
  - exists msgs. split; [exact Hmsgs |].
    eapply Forall2_impl; [exact Hall2 |].
    intros item m [Hl Hp]. simpl.
    destruct (Horigin _ _ Hl) as [Hin Hw]. by repeat split.
Qed.

(** X6. An item whose WebId is not in the index fails the assertion of the
    frame loop: the items in front of it have been published, and neither
    it nor any item behind it is. *)
Theorem unknown_web_id_stops_publication index data pre item post :
  message_items data = (pre ++ item :: post)%list ->
  (forall i, i ∈ pre -> is_Some (index !! item_web_id i)) ->
  index !! item_web_id item = None ->
  exists msgs,
    publish_frame index data = (msgs, false) /\
    Forall2 (fun i m => published_items m = List.map subitem_dict (items i)) pre msgs.
Proof.
  unfold publish_frame. intros -> Hpre Hitem.
  induction pre as [| i pre IH]; simpl.
  - rewrite Hitem. exists []. split; [reflexivity | constructor].
  - destruct (Hpre i ltac:(left)) as [sub Hsub]. rewrite Hsub.
    destruct IH as (msgs & Hmsgs & Hall); [intros j Hj; apply Hpre; by right |].
    rewrite Hmsgs. eexists. split; [reflexivity |].
    constructor; [reflexivity | exact Hall].
Qed.

Lemma first_mismatch_None t subs :
  first_mismatch t subs = None <-> Forall (fun s => web_id_type s = t) subs.
Proof.
  induction subs as [| s rest IH]; simpl.
  - split; [constructor | reflexivity].
  - rewrite Forall_cons, <- IH.
    destruct t, (web_id_type s); split; try tauto; try discriminate;
      intros [? ?]; discriminate.
Qed.

Lemma first_mismatch_Some t subs s :
  first_mismatch t subs = Some s -> s ∈ subs /\ web_id_type s <> t.
Proof.
  induction subs as [| x rest IH]; simpl; [discriminate |].
  destruct t, (web_id_type x) eqn:E;
    try (intros H; destruct (IH H); split; [by right | assumption]);
    intros [= <-]; (split; [left | congruence]).
Qed.

(** The channel URL is built exactly when every subscription has the
    WebId type of the connection; it then lists the WebIds in order between
    the fixed path and the fixed trailing parameters. Otherwise a
    ValueError names a subscription of another type. *)
Theorem build_url_requires_one_type t subs :
  (Forall (fun s => web_id_type s = t) subs ->
   build_url t subs =
     Valid ("/piwebapi/streamsets/channel?webId="
            +:+ join "&webId=" (List.map web_id subs)
            +:+ "&webIdType=" +:+ WebIdType_value t
            +:+ "&includeInitialValues=true")) /\
  (~ Forall (fun s => web_id_type s = t) subs ->
   exists s, s ∈ subs /\ web_id_type s <> t /\
     build_url t subs = ValueError ("Invalid WebIdType for subscription " +:+ web_id s)).
Proof.
  unfold build_url. split.
  - intros Hall. apply first_mismatch_None in Hall. by rewrite Hall.
  - intros Hnot. destruct (first_mismatch t subs) as [s |] eqn:E.
    + destruct (first_mismatch_Some _ _ _ E) as [Hin Hne]. by exists s.
    + apply first_mismatch_None in E. contradiction.
Qed.

Definition point_a : PIWebSubscription :=
  {| web_id := "F1DPa"; name := None; web_id_type := FULL; obj_type := POINT;
     source := "pi_web" |}.

Definition point_b : PIWebSubscription :=
  {| web_id := "F1DPb"; name := None; web_id_type := IDONLY; obj_type := POINT;
     source := "pi_web" |}.

Definition frame_a_b : PIWebMessage :=
  {| message_items :=
       [ {| item_name := "a"; item_web_id := "F1DPa"; items := [] |};
         {| item_name := "b"; item_web_id := "F1DPb"; items := [] |} ] |}.

Lemma frame_published_item_by_item_witness :
  exists msgs, publish_frame (build_index [point_a; point_b]) frame_a_b = (msgs, true).
Proof.
  destruct (frame_published_item_by_item [point_a; point_b] frame_a_b)
    as (msgs & Hmsgs & _).
  - apply (bool_decide_unpack _). by vm_compute.
  - intros item [-> | [-> | Hin]%elem_of_cons]%elem_of_cons.
    + exists point_a. split; [left | reflexivity].
    + exists point_b. split; [right; left | reflexivity].
    + inversion Hin.
  - by exists msgs.
Defined.

Lemma unknown_web_id_stops_publication_witness :
  exists msgs, publish_frame (build_index [point_a]) frame_a_b = (msgs, false).
Proof.
  destruct (unknown_web_id_stops_publication (build_index [point_a]) frame_a_b
              [ {| item_name := "a"; item_web_id := "F1DPa"; items := [] |} ]
              {| item_name := "b"; item_web_id := "F1DPb"; items := [] |} [])
    as (msgs & Hmsgs & _).
  - reflexivity.
  - intros i [-> | Hin]%elem_of_cons; [by eexists | inversion Hin].
  - reflexivity.
  - by exists msgs.
Defined.

Lemma build_index_round_trip_witness :
  build_index [point_a; point_b] !! "F1DPb" = Some point_b.
Proof.
  destruct (build_index_round_trip [point_a; point_b]) as (_ & _ & Hfind).
  refine (Hfind _ point_b _).
  - apply (bool_decide_unpack _). by vm_compute.
  - right. left.
Defined.

End PIWebIndexSpec.

Module PIWebPoolSpec.
Import Py PIWebIntegration PIWebPool PIWebIntegrationSpec.

Section pool.
Context {Sub : Type} `{Countable Sub}.

Lemma bins_union m n (l : list Sub) :
  (1 <= m)%nat -> (length l <= n * m)%nat -> ⋃ (bins m n l) = list_to_set l.
Proof.
  intros Hm. revert l. induction n as [| n IH]; intros l Hlen.
  - destruct l; [reflexivity | simpl in Hlen; lia].
  - rewrite bins_cons. simpl. rewrite IH by (rewrite length_drop; lia).
    rewrite <- list_to_set_app_L, take_drop. reflexivity.
Qed.

Lemma size_list_to_set_le (l : list Sub) :
  (size (list_to_set (C := gset Sub) l) <= length l)%nat.
Proof.
  induction l as [| x l IH]; [rewrite list_to_set_nil, size_empty; simpl; lia |].
  rewrite list_to_set_cons, size_union_alt, size_singleton. simpl.
  assert (size (list_to_set (C := gset Sub) l ∖ {[x]}) <= size (list_to_set (C := gset Sub) l))%nat
    by (apply subseteq_size, subseteq_difference_l; reflexivity).
  lia.
Qed.

Lemma bins_bounded m n (l : list Sub) :
  Forall (fun c : gset Sub => (size c <= m)%nat) (bins m n l).
Proof.
  unfold bins. apply Forall_fmap, Forall_forall. intros k _. simpl.
  etransitivity; [apply size_list_to_set_le |].
  unfold bin. rewrite length_take. lia.
Qed.

Lemma ceil_div_covers n m : 1 <= m -> 0 <= n -> n <= ceil_div n m * m.
Proof.
  intros Hm Hn. unfold ceil_div.
  pose proof (Z.div_mod (n + m - 1) m ltac:(lia)) as Hdm.
  pose proof (Z.mod_pos_bound (n + m - 1) m ltac:(lia)) as Hb.
  nia.
Qed.

(** What connection creation returns for a list when every connection
    starts: the sequential bins, which together hold the list. *)
Lemma created_bins started fuel M (l : list Sub) :
  1 <= M -> l <> [] -> (length l <= fuel)%nat -> (forall c, started c = true) ->
  exists conns,
    _create_connections started fuel M l
      = Some {| connections := conns; returned := Some conns |} /\
    ⋃ conns = list_to_set l /\
    Forall (fun c : gset Sub => Z.of_nat (size c) <= M) conns.
Proof.
  intros HM Hne Hfuel Hstarted. unfold _create_connections.
  rewrite create_loop_bins by assumption.
  assert (forall cs : list (gset Sub), forallb started cs = true) as ->
      by (intros cs; apply forallb_forall; auto).
  eexists. split; [reflexivity |]. split.
  - apply bins_union; [lia |].
    pose proof (ceil_div_covers (Z.of_nat (length l)) M HM ltac:(lia)) as Hc.
    pose proof (ceil_div_nonneg (Z.of_nat (length l)) M HM ltac:(lia)).
    nia.
  - eapply Forall_impl; [apply bins_bounded |]. simpl. intros c Hc. lia.
Qed.

(** X7. Subscribing on an open pool with room for the new subscriptions,
    when every connection starts, adds connections that together hold
    exactly the requested subscriptions that were not subscribed yet, none
    of them more than [max_subscriptions]. *)
Theorem subscribe_adds_exactly_new started fuel self (requested : gset Sub) :
  closed self = false ->
  1 <= _max_subscriptions self ->
  Z.of_nat (size (requested ∖ subscribed self)) <= capacity self ->
  (size (requested ∖ subscribed self) <= fuel)%nat ->
  (forall c, started c = true) ->
  exists added,
    subscribe started fuel self requested = PIWebIntegration.Returned true added /\
    ⋃ added = requested ∖ subscribed self /\
    Forall (fun c : gset Sub => Z.of_nat (size c) <= _max_subscriptions self) added.
Proof.
  intros Hopen HM Hcap Hfuel Hstarted.
  unfold subscribe. rewrite Hopen.
  unfold size, set_size in Hcap, Hfuel. simpl in Hcap, Hfuel.
  destruct (elements (requested ∖ subscribed self)) as [| s new] eqn:E.
  - exists []. split; [reflexivity |]. split; [| constructor].
    apply elements_empty_inv in E. apply leibniz_equiv in E. by rewrite E.
  - rewrite <- E in *.
    destruct (Z.leb_spec (Z.of_nat (length (elements (requested ∖ subscribed self))))
                         (capacity self)) as [_ | ?]; [| lia].
    destruct (created_bins started fuel (_max_subscriptions self)
                (elements (requested ∖ subscribed self)))
      as (conns & -> & Hunion & Hbound); try assumption.
    { rewrite E. discriminate. }
    simpl. exists conns. split; [reflexivity |]. split; [| exact Hbound].
    rewrite Hunion. apply list_to_set_elements_L.
Qed.

(** X8. Subscribing never adds part of a request. On a closed pool it
    raises; when nothing requested is new it succeeds without a connection;
    when there are new subscriptions and they exceed the capacity, or when
    it reports failure for any other reason, no connection has been
    added. *)
Theorem subscribe_all_or_nothing started fuel self (requested : gset Sub) :
  (closed self = true ->
   subscribe started fuel self requested = PIWebIntegration.Raise_IntegrationClosed) /\
  (closed self = false -> requested ⊆ subscribed self ->
   subscribe started fuel self requested = PIWebIntegration.Returned true []) /\
  (closed self = false -> requested ∖ subscribed self <> ∅ ->
   capacity self < Z.of_nat (size (requested ∖ subscribed self)) ->
   subscribe started fuel self requested = PIWebIntegration.Returned false []) /\
  (forall added,
     subscribe started fuel self requested = PIWebIntegration.Returned false added ->
     added = []).
Proof.
  unfold subscribe. split; [by intros -> |]. split; [| split].
  - intros -> Hsub.
    rewrite (subseteq_empty_difference_L _ _ Hsub).
    by rewrite elements_empty.
  - intros -> Hnew Hcap. unfold size, set_size in Hcap. simpl in Hcap.
    destruct (elements (requested ∖ subscribed self)) as [| s new] eqn:E.
    { apply elements_empty_inv, leibniz_equiv in E. contradiction. }
    rewrite <- E.
    destruct (Z.leb_spec (Z.of_nat (length (elements (requested ∖ subscribed self))))
                         (capacity self)) as [Hle | _]; [| reflexivity].
    rewrite E in Hle. lia.
  - intros added. destruct (closed self); [discriminate |].
    destruct (elements (requested ∖ subscribed self)) as [| s new]; [discriminate |].
    destruct (Z.of_nat (length (s :: new)) <=? capacity self); [| congruence].
    destruct (_create_connections started fuel (_max_subscriptions self) (s :: new))
      as [c |]; [| discriminate].
    destruct (returned c); congruence.
Qed.

End pool.

Definition open_pool : integration (Sub := nat) :=
  {| closed := false; subscribed := {[1%nat]}; _max_capacity := 10;
     _max_subscriptions := 2 |}.

Lemma subscribe_adds_exactly_new_witness :
  exists added,
    subscribe (fun _ => true) 3 open_pool {[1%nat; 2%nat; 3%nat; 4%nat]}
      = PIWebIntegration.Returned true added /\
    ⋃ added = {[1%nat; 2%nat; 3%nat; 4%nat]} ∖ subscribed open_pool.
Proof.
  destruct (subscribe_adds_exactly_new (fun _ => true) 3 open_pool
              {[1%nat; 2%nat; 3%nat; 4%nat]})
    as (added & Hsub & Hunion & _).
  - reflexivity.
  - simpl. lia.
  - vm_compute. discriminate.
  - vm_compute. lia.
  - reflexivity.
  - by exists added.
Defined.

Definition full_pool : integration (Sub := nat) :=
  {| closed := false; subscribed := {[1%nat]}; _max_capacity := 1;
     _max_subscriptions := 2 |}.

Lemma subscribe_all_or_nothing_witness :
  subscribe (fun _ => true) 3 full_pool {[2%nat]} = PIWebIntegration.Returned false [].
Proof.
  destruct (subscribe_all_or_nothing (fun _ => true) 3 full_pool {[2%nat]})
    as (_ & _ & Hfull & _).
  apply Hfull.
  - reflexivity.
  - vm_compute. discriminate.
  - reflexivity.
Defined.

End PIWebPoolSpec.

Module PIWebUnsubscribeSpec.
Import Py PIWebIntegration PIWebPool PIWebIntegrationSpec PIWebPoolSpec.

#[local] Set Warnings "-clear-no-such-hyp".

Section pool.
Context {Sub : Type} `{Countable Sub}.

Lemma loses_subscription (c s : gset Sub) :
  size (c ∖ s) ≠ size c <-> c ∩ s ≠ ∅.
Proof.
  rewrite size_difference_alt.
  assert (size (c ∩ s) <= size c)%nat
    by (apply subseteq_size, intersection_subseteq_l).
  split.
  - intros Hne Hempty. rewrite Hempty, size_empty in Hne. lia.
  - intros Hne.
    assert (size (c ∩ s) ≠ 0%nat)
      by (apply size_non_empty_iff; intros Heq; apply Hne; by apply leibniz_equiv).
    lia.
Qed.

Lemma affected_cancel (s : gset Sub) conns :
  (affected s conns).1 = filter (fun c => c ∩ s ≠ ∅) conns.
Proof.
  induction conns as [| c rest IH]; [reflexivity |].
  simpl. destruct (affected s rest) as [to_cancel to_keep]. simpl in IH.
  rewrite filter_cons.
  destruct (decide (size (c ∖ s) ≠ size c)) as [Hc | Hc],
           (decide (c ∩ s ≠ ∅)) as [Hi | Hi]; simpl.
  - by rewrite IH.
  - by apply loses_subscription in Hc.
  - by apply loses_subscription in Hi.
  - exact IH.
Qed.

Lemma affected_keep (s : gset Sub) conns :
  list_to_set (C := gset Sub) (affected s conns).2 = ⋃ (affected s conns).1 ∖ s.
Proof.
  induction conns as [| c rest IH]; simpl.
  - set_solver.
  - destruct (affected s rest) as [to_cancel to_keep]. simpl in IH.
    destruct (decide (size (c ∖ s) ≠ size c)); simpl; [| exact IH].
    rewrite list_to_set_app_L, list_to_set_elements_L, IH.
    set_solver.
Qed.

Lemma affected_keep_length (s : gset Sub) conns :
  (length (affected s conns).2 <= sum_list (size <$> conns))%nat.
Proof.
  induction conns as [| c rest IH]; [simpl; lia |].
  change (sum_list (size <$> c :: rest)) with (size c + sum_list (size <$> rest))%nat.
  cbn [affected].
  destruct (affected s rest) as [to_cancel to_keep]. cbn [snd] in IH.
  destruct (decide (size (c ∖ s) ≠ size c)); cbn [snd]; [| lia].
  rewrite length_app.
  assert (length (elements (c ∖ s)) <= size c)%nat
    by (apply (subseteq_size (c ∖ s) c), subseteq_difference_l; reflexivity).
  lia.
Qed.

Lemma affected_ext (s1 s2 : gset Sub) conns :
  Forall (fun c => c ∖ s1 = c ∖ s2) conns -> affected s1 conns = affected s2 conns.
Proof.
  induction 1 as [| c rest Hc _ IH]; [reflexivity |].
  simpl. by rewrite IH, Hc.
Qed.

Lemma member_subseteq_union (c : gset Sub) conns : c ∈ conns -> c ⊆ ⋃ conns.
Proof. intros Hc x Hx. apply elem_of_union_list. eauto. Qed.

Lemma union_split (s : gset Sub) conns :
  ⋃ (filter (fun c => c ∩ s = ∅) conns) ∪ (⋃ (filter (fun c => c ∩ s ≠ ∅) conns) ∖ s)
    = ⋃ conns ∖ s.
Proof.
  induction conns as [| c rest IH]; [set_solver |].
  rewrite !filter_cons.
  destruct (decide (c ∩ s = ∅)) as [Hd | Hd];
    destruct (decide (c ∩ s ≠ ∅)) as [Hd' | Hd']; try contradiction; simpl;
    set_solver.
Qed.

(** X9. Unsubscribing on an open pool whose connections hold the current
    subscriptions, when every replacement connection starts, cancels
    exactly the connections that hold a requested subscription, starts
    connections that hold exactly the other subscriptions of the cancelled
    ones, and leaves the pool holding what it held before without the
    requested subscriptions. *)
Theorem unsubscribe_removes_exactly_requested started fuel current M conns
        (requested : gset Sub) :
  current = ⋃ conns ->
  1 <= M ->
  (sum_list (size <$> conns) <= fuel)%nat ->
  (forall c, started c = true) ->
  exists cancelled added,
    unsubscribe started fuel false current M conns requested
      = Returned true cancelled added /\
    cancelled = filter (fun c => c ∩ requested ≠ ∅) conns /\
    ⋃ added = ⋃ cancelled ∖ requested /\
    ⋃ (filter (fun c => c ∩ requested = ∅) conns) ∪ ⋃ added = ⋃ conns ∖ requested /\
    Forall (fun c : gset Sub => Z.of_nat (size c) <= M) added.
Proof.
  intros Hcur HM Hfuel Hstarted. unfold unsubscribe.
  set (s := requested ∖ (requested ∖ current)).
  assert (Forall (fun c => c ∖ s = c ∖ requested) conns) as Hsame.
  { apply Forall_forall. intros c Hc.
    assert (c ⊆ current) by (rewrite Hcur; by apply member_subseteq_union).
    subst s. set_solver. }
  destruct (decide (s = ∅)) as [Hs | Hs].
  - assert (Forall (fun c => c ∩ requested = ∅) conns) as Hnone.
    { apply Forall_forall. intros c Hc.
      assert (c ⊆ current) by (rewrite Hcur; by apply member_subseteq_union).
      subst s. set_solver. }
    assert (filter (fun c => c ∩ requested ≠ ∅) conns = []) as Hnil.
    { clear -Hnone. induction Hnone as [| c rest Hc _ IH]; [reflexivity |].
      rewrite filter_cons. destruct (decide (c ∩ requested ≠ ∅)); [contradiction | exact IH]. }
    exists [], []. split; [reflexivity |]. rewrite Hnil. split; [reflexivity |].
    split; [set_solver |].
    split; [| constructor].
    rewrite <- (union_split requested conns), Hnil. set_solver.
  - rewrite (affected_ext s requested conns Hsame).
    pose proof (affected_cancel requested conns) as Hcancel.
    pose proof (affected_keep requested conns) as Hkeep.
    pose proof (affected_keep_length requested conns) as Hlen.
    destruct (affected requested conns) as [to_cancel to_keep]. simpl in *.
    destruct to_keep as [| k to_keep].
    + exists to_cancel, []. split; [reflexivity |]. split; [exact Hcancel |].
      rewrite list_to_set_nil in Hkeep. split; [exact Hkeep |].
      split; [| constructor].
      rewrite <- (union_split requested conns), <- Hcancel. simpl. by rewrite <- Hkeep.
    + destruct (created_bins started fuel M (k :: to_keep))
        as (added & -> & Hunion & Hbound); try assumption; [discriminate | lia |].
      simpl. exists to_cancel, added. split; [reflexivity |].
      split; [exact Hcancel |]. rewrite Hunion, Hkeep.
      split; [reflexivity |]. split; [| exact Hbound].
      rewrite <- (union_split requested conns), <- Hcancel. reflexivity.
Qed.

(** X10. Unsubscribing never cancels a connection without its replacement:
    on a closed pool it raises, when nothing requested is currently
    subscribed it succeeds without touching a connection, and whenever it
    reports failure no connection has been cancelled or added. *)
Theorem unsubscribe_all_or_nothing started fuel closed current M conns
        (requested : gset Sub) :
  (closed = true ->
   unsubscribe started fuel closed current M conns requested = Raise_IntegrationClosed) /\
  (closed = false -> requested ∩ current = ∅ ->
   unsubscribe started fuel closed current M conns requested = Returned true [] []) /\
  (forall cancelled added,
     unsubscribe started fuel closed current M conns requested
       = Returned false cancelled added ->
     cancelled = [] /\ added = []).
Proof.
  unfold unsubscribe. split; [by intros -> |]. split.
  - intros -> Hnone.
    destruct (decide (requested ∖ (requested ∖ current) = ∅)) as [_ | Hne];
      [reflexivity |].
    destruct Hne. set_solver.
  - intros cancelled added. destruct closed; [discriminate |].
    destruct (decide (requested ∖ (requested ∖ current) = ∅)); [discriminate |].
    destruct (affected (requested ∖ (requested ∖ current)) conns) as [tc tk].
    destruct tk as [| k tk]; [discriminate |].
    destruct (_create_connections started fuel M (k :: tk)) as [c |]; [| discriminate].
    destruct (returned c); [discriminate |].
    intros [= <- <-]. by split.
Qed.

End pool.

Definition held : list (gset nat) := [{[1%nat; 2%nat]}; {[3%nat]}].

Lemma unsubscribe_removes_exactly_requested_witness :
  exists cancelled added,
    unsubscribe (fun _ => true) 3 false (⋃ held) 2 held {[2%nat]}
      = Returned true cancelled added /\
    ⋃ added = ⋃ cancelled ∖ {[2%nat]}.
Proof.
  destruct (unsubscribe_removes_exactly_requested
              (fun _ => true) 3 (⋃ held) 2 held {[2%nat]})
    as (cancelled & added & Hun & _ & Hadded & _).
  - reflexivity.
  - lia.
  - vm_compute. lia.
  - reflexivity.
  - exists cancelled, added. by split.
Defined.

Lemma unsubscribe_all_or_nothing_witness :
  unsubscribe (fun _ => true) 3 false (⋃ held) 2 held {[7%nat]} = Returned true [] [].
Proof.
  destruct (unsubscribe_all_or_nothing (fun _ => true) 3 false (⋃ held) 2 held
              {[7%nat]}) as (_ & Hnone & _).
  apply Hnone; [reflexivity | by vm_compute].
Defined.

End PIWebUnsubscribeSpec.

Module TraxxConnectionSpec.
Import Py TraxxModels TraxxConnection PySpec TraxxModelsSpec.

#[local] Set Warnings "-clear-no-such-hyp".

Lemma dt_lt_le a b : dt_lt a b = true -> dt_le a b = true.
Proof. unfold dt_lt, dt_le. by destruct (dt_compare a b). Qed.

Lemma dt_lt_not_le a b : dt_lt a b = negb (dt_le b a).
Proof.
  unfold dt_lt, dt_le. rewrite (dt_compare_antisym a b).
  by destruct (dt_compare a b).
Qed.

Lemma dt_le_lt_trans a b c : dt_le a b = true -> dt_lt b c = true -> dt_lt a c = true.
Proof.
  intros Hab Hbc. rewrite dt_lt_not_le. apply negb_true_iff.
  destruct (dt_le c a) eqn:Hca; [| reflexivity].
  rewrite dt_lt_not_le, (dt_le_trans c a b Hca Hab) in Hbc. discriminate.
Qed.

Lemma dt_lt_trans a b c : dt_lt a b = true -> dt_lt b c = true -> dt_lt a c = true.
Proof. intros Hab. apply dt_le_lt_trans. by apply dt_lt_le. Qed.

(** Strictly earlier, on items. *)
Definition earlier (a b : TraxxSensorItem) : Prop :=
  dt_lt (timestamp a) (timestamp b) = true.

Definition after (t : datetime) (it : TraxxSensorItem) : Prop :=
  dt_lt t (timestamp it) = true.

Lemma last_item_snoc l it : last_item (l ++ [it]) = Some it.
Proof.
  unfold last_item. rewrite List.map_app. simpl. apply List.last_last.
Qed.

Lemma last_item_None l : last_item l = None -> l = [].
Proof.
  destruct l as [| x l] using rev_ind; [reflexivity |].
  rewrite last_item_snoc. discriminate.
Qed.

Lemma last_item_Some l it : last_item l = Some it -> exists front, l = (front ++ [it])%list.
Proof.
  destruct l as [| x l _] using rev_ind; [discriminate |].
  rewrite last_item_snoc. intros [= ->]. by exists l.
Qed.

Lemma items_after_all t l : Forall (after t) (items_after t l).
Proof.
  apply Forall_forall. intros it [_ Hgt]%items_after_elem.
  unfold after. by rewrite dt_lt_gt.
Qed.

Lemma items_after_sorted t l :
  StronglySorted earlier l -> StronglySorted earlier (items_after t l).
Proof.
  induction 1 as [| x l _ IH Hx]; simpl; [constructor |].
  destruct (dt_gt (timestamp x) t); [| exact IH].
  constructor; [exact IH |].
  apply Forall_forall. intros y [Hy _]%items_after_elem.
  rewrite Forall_forall in Hx. by apply Hx.
Qed.

(** X11. The first validated message of a connection only sets the
    watermark and is not published. Every later message is published
    exactly as its items that are strictly later than the watermark, which
    then moves forward to the timestamp of the last of them; a message
    without such an item is not published and leaves the watermark where it
    was. *)
Theorem watermark_moves_forward data :
  (forall t published, handle_message None data = Handled t published ->
     published = None /\ exists it, last_item (items data) = Some it /\ t = Some (timestamp it)) /\
  (forall w, exists t published,
     handle_message (Some w) data = Handled (Some t) published /\
     (published = None -> t = w /\ items_after w (items data) = []) /\
     (forall message, published = Some message ->
        message = items_after w (items data) /\ message <> [] /\
        Forall (after w) message /\ dt_lt w t = true /\
        exists it, last_item message = Some it /\ t = timestamp it)).
Proof.
  split.
  - intros t published. unfold handle_message.
    destruct (last_item (items data)) as [it |]; [| discriminate].
    intros [= <- <-]. split; [reflexivity | by exists it].
  - intros w. unfold handle_message. simpl.
    destruct (last_item (items_after w (items data))) as [it |] eqn:E.
    + exists (timestamp it), (Some (items_after w (items data))).
      split; [reflexivity |]. split; [discriminate |].
      intros message [= <-].
      destruct (last_item_Some _ _ E) as [front Hfront].
      split; [reflexivity |]. split; [rewrite Hfront; by destruct front |].
      split; [apply items_after_all |].
      split; [| by exists it].
      pose proof (items_after_all w (items data)) as Hall.
      rewrite Hfront in Hall. apply Forall_app in Hall as [_ Hlast].
      by inversion Hlast.
    + exists w, None. split; [reflexivity |].
      split; [| discriminate]. intros _. split; [reflexivity |].
      by apply last_item_None.
Qed.

Lemma handle_messages_increasing w batches :
  Forall (fun data => StronglySorted earlier (items data)) batches ->
  exists queue t,
    handle_messages (Some w) batches = Some (queue, Some t) /\
    StronglySorted earlier (concat queue) /\
    Forall (after w) (concat queue).
Proof.
  intros Hsorted. revert w.
  induction Hsorted as [| data rest Hdata _ IH]; intros w; simpl.
  - exists [], w. repeat split; constructor.
  - destruct (last_item (items_after w (items data))) as [it |] eqn:E.
    + destruct (IH (timestamp it)) as (queue & t & -> & Hq & Hafter).
      exists (items_after w (items data) :: queue), t.
      split; [reflexivity |]. simpl.
      pose proof (items_after_sorted w _ Hdata) as Hs.
      pose proof (items_after_all w (items data)) as Hall.
      destruct (last_item_Some _ _ E) as [front Hfront].
      assert (dt_lt w (timestamp it) = true) as Hw.
      { rewrite Hfront in Hall. apply Forall_app in Hall as [_ Hlast].
        by inversion Hlast. }
      assert (forall x, x ∈ items_after w (items data) ->
                        dt_le (timestamp x) (timestamp it) = true) as Hmax.
      { intros x Hx. rewrite Hfront in Hx, Hs.
        apply elem_of_app in Hx as [Hx | Hx%list_elem_of_singleton].
        - apply dt_lt_le.
          apply (StronglySorted_app_1_elem_of earlier front [it] x it Hs Hx).
          by apply list_elem_of_singleton.
        - subst x. unfold dt_le. by rewrite dt_compare_refl. }
      rewrite Forall_forall in Hafter.
      split.
      * apply StronglySorted_app_2; [| exact Hs | exact Hq].
        intros x y Hx Hy. unfold earlier.
        apply (dt_le_lt_trans _ (timestamp it)); [by apply Hmax | by apply Hafter].
      * apply Forall_app. split; [exact Hall |].
        apply Forall_forall. intros y Hy. unfold after.
        apply (dt_lt_trans _ (timestamp it)); [exact Hw | by apply Hafter].
    + destruct (IH w) as (queue & t & -> & Hq & Hafter).
      by exists queue, t.
Qed.

(** X12. When every reply lists its items in strictly ascending order of
    timestamp, the items published over a run of replies have strictly
    increasing timestamps, across messages as well as inside them: no
    sample is published twice, and none of the first reply is published at
    all. *)
Theorem published_timestamps_increase first rest :
  items first <> [] ->
  Forall (fun data => StronglySorted earlier (items data)) (first :: rest) ->
  exists queue t,
    handle_messages None (first :: rest) = Some (queue, Some t) /\
    StronglySorted earlier (concat queue) /\
    (forall it, it ∈ concat queue ->
       forall x, x ∈ items first -> earlier x it).
Proof.
  intros Hne Hsorted. apply Forall_cons in Hsorted as [Hfirst Hrest].
  simpl. destruct (last_item (items first)) as [it |] eqn:E;
    [| by apply last_item_None in E].
  destruct (handle_messages_increasing (timestamp it) rest Hrest)
    as (queue & t & -> & Hq & Hafter).
  exists queue, t. split; [reflexivity |]. split; [exact Hq |].
  intros y Hy x Hx. rewrite Forall_forall in Hafter.
  destruct (last_item_Some _ _ E) as [front Hfront].
  rewrite Hfront in Hx, Hfirst. unfold earlier.
  apply (dt_le_lt_trans _ (timestamp it)); [| by apply Hafter].
  apply elem_of_app in Hx as [Hx | Hx%list_elem_of_singleton].
  - apply dt_lt_le.
    apply (StronglySorted_app_1_elem_of earlier front [it] x it Hfirst Hx).
    by apply list_elem_of_singleton.
  - subst x. unfold dt_le. by rewrite dt_compare_refl.
Qed.

Section replies.
Variable isoparse : string -> option datetime.
Variable to_float : string -> option float.

(** A reply without reader, without lines, or with a line that does
    not validate changes nothing: the watermark stays and nothing is
    published. A line with fewer than two columns raises IndexError. *)
Theorem unusable_reply_changes_nothing subscription last_timestamp :
  handle_reply isoparse to_float subscription last_timestamp None
    = Handled last_timestamp None /\
  handle_reply isoparse to_float subscription last_timestamp (Some [])
    = Handled last_timestamp None /\
  (forall lines rows,
     columns lines = Some rows -> validate_items isoparse to_float rows = None ->
     handle_reply isoparse to_float subscription last_timestamp (Some lines)
       = Handled last_timestamp None) /\
  (forall lines, columns lines = None ->
     handle_reply isoparse to_float subscription last_timestamp (Some lines)
       = Raise_IndexError).
Proof.
  split; [reflexivity |]. split; [reflexivity |]. split.
  - intros lines rows Hc Hv. unfold handle_reply. rewrite Hc.
    destruct rows; [reflexivity |]. by rewrite Hv.
  - intros lines Hc. unfold handle_reply. by rewrite Hc.
Qed.
End replies.

Definition sample_at (minute : N) : TraxxSensorItem :=
  {| timestamp := mk_datetime 2023 1 5 10 minute 0 0; value := 1.5%float |}.

Definition reply (l : list TraxxSensorItem) : TraxxSensorMessage :=
  {| subscription := sample_subscription; items := l |}.

Lemma published_timestamps_increase_witness :
  exists queue t,
    handle_messages None [reply [sample_at 1; sample_at 2];
                          reply [sample_at 1; sample_at 2; sample_at 3];
                          reply [sample_at 2; sample_at 3; sample_at 4]]
      = Some (queue, Some t) /\
    StronglySorted earlier (concat queue).
Proof.
  destruct (published_timestamps_increase
              (reply [sample_at 1; sample_at 2])
              [reply [sample_at 1; sample_at 2; sample_at 3];
               reply [sample_at 2; sample_at 3; sample_at 4]])
    as (queue & t & Hrun & Hsorted & _).
  - discriminate.
  - repeat constructor.
  - by exists queue, t.
Defined.

Lemma watermark_moves_forward_witness :
  exists t,
    handle_message (Some (timestamp (sample_at 2)))
                   (reply [sample_at 1; sample_at 2; sample_at 3])
      = Handled (Some t) (Some [sample_at 3]) /\
    dt_lt (timestamp (sample_at 2)) t = true /\
    t = timestamp (sample_at 3).
Proof.
  destruct (watermark_moves_forward (reply [sample_at 1; sample_at 2; sample_at 3]))
    as [_ Hnext].
  destruct (Hnext (timestamp (sample_at 2))) as (t & published & Hrun & _ & Hpub).
  assert (published = Some [sample_at 3]) as -> by (by injection Hrun).
  destruct (Hpub _ eq_refl) as (_ & _ & _ & Hlt & it & Hlast & Ht).
  exists t. split; [exact Hrun |]. split; [exact Hlt |].
  injection Hlast as <-. exact Ht.
Defined.

End TraxxConnectionSpec.

Module TraxxClientSpec.
Import TraxxClient.

(** X13. The consumer cache belongs to the class and is keyed by the
    consumer's class name only: once a client has created the sensors
    consumer, every client gets that same instance, bound to the session of
    the client that created it, and the cache is not changed again. *)
Theorem sensors_consumer_is_shared first_session other_session consumers :
  let '(first, cache) := sensors first_session consumers in
  let '(other, cache') := sensors other_session cache in
  other = first /\ cache' = cache /\
  (consumers !! "Sensors" = None -> session other = first_session).
Proof.
  unfold sensors, _get_consumer_instance.
  destruct (consumers !! "Sensors") as [instance |] eqn:E.
  - rewrite E. repeat split. discriminate.
  - rewrite lookup_insert_eq. repeat split.
Qed.

Lemma sensors_consumer_is_shared_witness :
  session (sensors 2 (sensors 1 ∅).2).1 = 1%nat.
Proof.
  pose proof (sensors_consumer_is_shared 1 2 ∅) as H.
  destruct (sensors 1 ∅) as [first cache].
  simpl. destruct (sensors 2 cache) as [other cache'].
  destruct H as (_ & _ & H). exact (H eq_refl).
Defined.

End TraxxClientSpec.

Module TraxxIntegrationSpec.
Import Py TraxxIntegration.

#[local] Set Warnings "-clear-no-such-hyp".

Section integration.
Context {Sub : Type} `{Countable Sub}.

Lemma singletons_union (l : list Sub) :
  ⋃ (List.map (fun s => ({[s]} : gset Sub)) l) = list_to_set l.
Proof. induction l as [| x l IH]; simpl; [reflexivity | by rewrite IH]. Qed.

(** X14. Subscribing on an open Traxx integration with room for the new
    subscriptions, when every connection starts, adds exactly one
    connection per new subscription, each holding that subscription
    alone. *)
Theorem subscribe_one_connection_each started current M (requested : gset Sub) :
  Z.of_nat (size (requested ∖ current)) <= M - Z.of_nat (size current) ->
  (forall c, started c = true) ->
  exists added,
    subscribe started false current M requested = Returned true added /\
    added = List.map (fun s => {[s]}) (elements (requested ∖ current)) /\
    length added = size (requested ∖ current) /\
    ⋃ added = requested ∖ current.
Proof.
  intros Hcap Hstarted. unfold subscribe.
  change (size (requested ∖ current)) with (length (elements (requested ∖ current))) in *.
  destruct (elements (requested ∖ current)) as [| s new] eqn:E.
  - exists []. split; [reflexivity |]. split; [reflexivity |].
    split; [reflexivity |].
    apply elements_empty_inv, leibniz_equiv in E. by rewrite E.
  - rewrite <- E in *.
    destruct (Z.leb_spec (Z.of_nat (length (elements (requested ∖ current))))
                         (M - Z.of_nat (size current))) as [_ | ?]; [| lia].
    unfold _create_connections. simpl.
    assert (forall cs : list (gset Sub), forallb started cs = true) as ->
        by (intros cs; apply forallb_forall; auto).
    eexists. split; [reflexivity |]. split; [reflexivity |].
    split; [by rewrite length_map |].
    rewrite singletons_union. apply list_to_set_elements_L.
Qed.

(** X15. Unsubscribing on an open Traxx integration cancels exactly the
    connections whose subscription is requested and currently subscribed,
    and returns no value, also when it succeeded. *)
Theorem unsubscribe_cancels_requested current conns (requested : gset Sub) :
  exists cancelled,
    unsubscribe false current conns requested = Return_None cancelled /\
    forall c, c ∈ cancelled <->
              c ∈ conns /\ exists s, subscription c = Some s /\ s ∈ requested /\ s ∈ current.
Proof.
  unfold unsubscribe. eexists. split; [reflexivity |].
  intros c. rewrite list_elem_of_In, filter_In, <- list_elem_of_In.
  split.
  - intros [Hc Hs]. split; [exact Hc |].
    destruct (subscription c) as [s |]; [| discriminate].
    apply bool_decide_eq_true in Hs. exists s.
    apply elem_of_difference in Hs as [Hr Hn].
    split; [reflexivity |]. split; [exact Hr |].
    destruct (decide (s ∈ current)) as [Hcur | Hcur]; [exact Hcur |].
    destruct Hn. by apply elem_of_difference.
  - intros [Hc (s & -> & Hr & Hcur)]. split; [exact Hc |].
    apply bool_decide_eq_true, elem_of_difference. split; [exact Hr |].
    intros [_ Hn]%elem_of_difference. contradiction.
Qed.

End integration.

Lemma subscribe_one_connection_each_witness :
  exists added,
    subscribe (fun _ => true) false ({[1%nat]} : gset nat) 5 {[1%nat; 2%nat; 3%nat]}
      = Returned true added /\
    length added = 2%nat.
Proof.
  destruct (subscribe_one_connection_each (fun _ => true) ({[1%nat]} : gset nat) 5
              {[1%nat; 2%nat; 3%nat]})
    as (added & Hsub & _ & Hlen & _).
  - vm_compute. discriminate.
  - reflexivity.
  - exists added. split; [exact Hsub |]. rewrite Hlen. reflexivity.
Defined.

End TraxxIntegrationSpec.

Module AuthClientSpec.
Import Py Auth AuthClient AuthSpec.

Lemma deque_rotate_eq {A} (d : list A) :
  deque_rotate d = (drop (length d - 1) d ++ take (length d - 1) d)%list.
Proof. by destruct d. Qed.

Lemma length_deque_rotate {A} (d : list A) : length (deque_rotate d) = length d.
Proof.
  rewrite deque_rotate_eq, length_app, length_drop, length_take. lia.
Qed.

Lemma iter_deque_rotate {A} (l : list A) k :
  (k <= length l)%nat ->
  Nat.iter k deque_rotate l = (drop (length l - k) l ++ take (length l - k) l)%list.
Proof.
  induction k as [| k IH]; intros Hk.
  - simpl. rewrite Nat.sub_0_r, drop_all, take_ge by lia. reflexivity.
  - simpl. rewrite IH by lia.
    replace (length l - k)%nat with (S (length l - S k)) by lia.
    set (j := (length l - S k)%nat).
    rewrite deque_rotate_eq.
    assert (length (drop (S j) l) = k) as Hd by (rewrite length_drop; lia).
    assert (length (take (S j) l) = S j) as Ht by (rewrite length_take; lia).
    rewrite length_app, Hd, Ht.
    rewrite drop_app, take_app, Hd.
    rewrite (drop_ge (drop (S j) l)) by lia.
    rewrite (take_ge (drop (S j) l)) by lia.
    replace (k + S j - 1 - k)%nat with j by lia.
    rewrite take_take, Nat.min_l by lia. simpl.
    rewrite <- (drop_take_drop l j (S j)) by lia.
    by rewrite <- !(assoc (++)).
Qed.

Lemma rotated_0 cl : rotated 0 cl = cl.
Proof. reflexivity. Qed.

Lemma rotated_controllers k cl :
  _controllers (rotated k cl) = Nat.iter k deque_rotate (_controllers cl).
Proof.
  revert cl. induction k as [| k IH]; intros cl; [by rewrite rotated_0 |].
  rewrite rotated_S, IH, Nat.iter_succ_r. reflexivity.
Qed.

Lemma rotated_bases k cl :
  _bases (rotated k cl) = Nat.iter k deque_rotate (_bases cl).
Proof.
  revert cl. induction k as [| k IH]; intros cl; [by rewrite rotated_0 |].
  rewrite rotated_S, IH, Nat.iter_succ_r. reflexivity.
Qed.

Lemma client_eq a b :
  _controllers a = _controllers b -> _bases a = _bases b -> a = b.
Proof. destruct a, b. simpl. by intros -> ->. Qed.

(** X16. Rotating a client as many times as it has controllers brings
    controllers and bases back to their initial order; before that, the
    k-th rotation puts at the front the controller and the base that are k
    places from the end, so that a round of [len(client)] attempts goes to
    every controller once. *)
Theorem rotation_visits_every_controller cl :
  length (_bases cl) = length (_controllers cl) ->
  rotated (len cl) cl = cl /\
  (forall k, (k <= len cl)%nat -> len (rotated k cl) = len cl) /\
  (forall k, (1 <= k <= len cl)%nat ->
     head (_controllers (rotated k cl)) = _controllers cl !! (len cl - k)%nat /\
     head (_bases (rotated k cl)) = _bases cl !! (len cl - k)%nat).
Proof.
  intros Hlen. unfold len in *. split; [| split].
  - apply client_eq.
    + rewrite rotated_controllers, iter_deque_rotate by lia.
      rewrite Nat.sub_diag, drop_0, take_0. apply app_nil_r.
    + rewrite rotated_bases, iter_deque_rotate by lia.
      rewrite Hlen, Nat.sub_diag, drop_0, take_0. apply app_nil_r.
  - intros k Hk. rewrite rotated_controllers, iter_deque_rotate by lia.
    rewrite length_app, length_drop, length_take. lia.
  - intros k Hk.
    rewrite rotated_controllers, rotated_bases, !iter_deque_rotate by lia.
    rewrite !head_lookup, !lookup_app_l by (rewrite length_drop; lia).
    rewrite !lookup_drop, Hlen, Nat.add_0_r. by split.
Qed.

Section init.
Variable discover_domain : option string.
Variable discover_domain_controllers : option (list string).
Variable get_root_dse : string -> option string.

(** The base stored for a controller is the one the controller gave. *)
Definition base_of (url base : string) : Prop := get_root_dse url = Some base.

Lemma root_dses_paired controllers bases :
  root_dses get_root_dse controllers = Some bases -> Forall2 base_of controllers bases.
Proof.
  revert bases. induction controllers as [| url rest IH]; simpl; intros bases.
  - intros [= <-]. constructor.
  - destruct (get_root_dse url) as [base |] eqn:E; [| discriminate].
    destruct (root_dses get_root_dse rest) as [bs |]; [| discriminate].
    intros [= <-]. constructor; [exact E | by apply IH].
Qed.

Lemma deque_rotate_paired controllers bases :
  Forall2 base_of controllers bases ->
  Forall2 base_of (deque_rotate controllers) (deque_rotate bases).
Proof.
  intros Hp. rewrite !deque_rotate_eq, <- (Forall2_length _ _ _ Hp).
  apply Forall2_app; [by apply Forall2_drop | by apply Forall2_take].
Qed.

(** X17. A client that has been constructed uses one of the two supported
    mechanisms and holds, for every controller, the base that this
    controller returned; rotating the client any number of times keeps each
    controller with its own base, so that a lookup always searches the base
    of the controller it connects to. *)
Theorem constructed_client_keeps_pairs platform domain hosts tls mechanism d m cl :
  ActiveDirectoryClient_init discover_domain discover_domain_controllers get_root_dse
                             platform domain hosts tls mechanism
    = Constructed d m cl ->
  (m = "GSSAPI" \/ m = "SIMPLE") /\
  (forall h hs, hosts = Some (h :: hs) ->
     _controllers cl = List.map (fun host => scheme tls +:+ host) (h :: hs)) /\
  forall k, Forall2 base_of (_controllers (rotated k cl)) (_bases (rotated k cl)).
Proof.
  unfold ActiveDirectoryClient_init. intros Hinit.
  destruct (String.eqb_spec (upper mechanism) "GSSAPI") as [Hg | Hg];
    destruct (String.eqb_spec (upper mechanism) "SIMPLE") as [Hs | Hs];
    simpl in Hinit; try discriminate.
  all: match type of Hinit with
       | (if ?b then _ else _) = _ => destruct b; [discriminate |]
       end.
  all: match type of Hinit with
       | match ?dm with _ => _ end = _ =>
           destruct dm as [dom |]; [| discriminate]
       end.
  all: match type of Hinit with
       | match ?hs with _ => _ end = _ =>
           destruct hs as [hosts' |] eqn:Ehosts; [| discriminate]
       end.
  all: destruct (root_dses get_root_dse (List.map (fun host => scheme tls +:+ host) hosts'))
         as [bases |] eqn:Eb; [| discriminate].
  all: injection Hinit as <- <- <-.
  all: (split; [auto |]); split.
  all: try (intros h hs ->; simpl in Ehosts; by injection Ehosts as <-).
  all: intros k; rewrite rotated_controllers, rotated_bases; simpl.
  all: apply root_dses_paired in Eb.
  all: induction k as [| k IH]; simpl; [exact Eb | by apply deque_rotate_paired].
Qed.

End init.

Section backend.
Variable validate : string -> option string.
Variable get_user : nat -> ActiveDirectoryClient -> string -> get_user_outcome.

(** X18. A request without an Authorization header, with an empty one,
    with a scheme other than bearer, or with a token that the handler does
    not accept is anonymous: the directory is not asked and the client is
    not rotated. *)
Theorem anonymous_request_makes_no_lookup cl authorization :
  (authorization = None \/ authorization = Some "" \/
   (exists a, authorization = Some a /\
      (lower (get_authorization_scheme_param a).1 <> "bearer" \/
       validate (get_authorization_scheme_param a).2 = None))) ->
  authenticate validate get_user cl authorization
    = {| outcome := Return_None; client := cl; attempts := 0 |}.
Proof.
  intros [-> | [-> | (a & -> & Hbad)]]; try reflexivity.
  unfold authenticate. destruct a as [| c rest]; [reflexivity |].
  destruct (get_authorization_scheme_param (String c rest)) as [scheme token].
  simpl in Hbad.
  destruct (String.eqb_spec (lower scheme) "bearer") as [Hs | Hs]; simpl;
    [| reflexivity].
  destruct Hbad as [Hbad | ->]; [contradiction | reflexivity].
Qed.

End backend.

(** Text without a comma and without a line break. *)
Fixpoint plain (s : string) : bool :=
  match s with
  | EmptyString => true
  | String c rest =>
      negb (Ascii.eqb c ","%char) && negb (Ascii.eqb c (ascii_of_nat 10)) && plain rest
  end.

Lemma up_to_comma_plain name rest :
  plain name = true -> up_to_comma (name +:+ String ","%char rest) = Some name.
Proof.
  induction name as [| c name IH]; simpl; [reflexivity |].
  intros [[Hc Hn]%andb_true_iff Hp]%andb_true_iff.
  apply negb_true_iff in Hc, Hn. rewrite Hc, Hn, IH by exact Hp. reflexivity.
Qed.

Lemma up_to_comma_is_plain s g : up_to_comma s = Some g -> plain g = true.
Proof.
  revert g. induction s as [| c s IH]; simpl; [discriminate |]. intros g.
  destruct (Ascii.eqb c ","%char) eqn:Hc; [by intros [= <-] |].
  destruct (Ascii.eqb c (ascii_of_nat 10)) eqn:Hn; [discriminate |].
  destruct (up_to_comma s) as [g' |]; [| discriminate].
  intros [= <-]. simpl. rewrite Hc, Hn. simpl. by apply IH.
Qed.

Lemma substring_all s : String.substring 0 (String.length s) s = s.
Proof. induction s as [| c s IH]; simpl; [reflexivity | by rewrite IH]. Qed.

Lemma cn_search_step c rest :
  cn_search (String c rest)
  = match (if String.prefix "CN=" (String c rest)
           then up_to_comma (String.substring 3 (String.length (String c rest) - 3)
                                              (String c rest))
           else None) with
    | Some g => Some g
    | None => cn_search rest
    end.
Proof. reflexivity. Qed.

Lemma cn_search_is_plain group g : cn_search group = Some g -> plain g = true.
Proof.
  induction group as [| c rest IH]; [discriminate |].
  cbn [cn_search].
  destruct (if String.prefix "CN=" (String c rest)
            then up_to_comma (String.substring 3 (String.length (String c rest) - 3)
                                               (String c rest))
            else None) as [g' |] eqn:E.
  - intros [= <-]. destruct (String.prefix "CN=" (String c rest)); [| discriminate].
    by apply up_to_comma_is_plain in E.
  - exact IH.
Qed.

(** X19. The scope taken from a group is its common name: for a
    distinguished name that starts with "CN=name," where the name holds no
    comma and no line break, the scope is that name; and no scope ever
    holds a comma or a line break. *)
Theorem scope_is_common_name :
  (forall name rest, plain name = true ->
     cn_search ("CN=" +:+ name +:+ String ","%char rest) = Some name) /\
  (forall group scope, cn_search group = Some scope -> plain scope = true).
Proof.
  split; [| apply cn_search_is_plain].
  intros name rest Hp.
  change ("CN=" +:+ name +:+ String ","%char rest)
    with (String "C" (String "N" (String "=" (name +:+ String ","%char rest)))).
  rewrite cn_search_step.
  set (s := name +:+ String ","%char rest).
  assert (String.prefix "CN=" (String "C" (String "N" (String "=" s))) = true) as ->
      by (simpl; by destruct s).
  assert (String.substring 3 (String.length (String "C" (String "N" (String "=" s))) - 3)
                           (String "C" (String "N" (String "=" s))) = s) as ->
      by (simpl; rewrite Nat.sub_0_r; apply substring_all).
  subst s. by rewrite up_to_comma_plain.
Qed.

Lemma elem_of_scopes_of groups scope :
  scope ∈ scopes_of groups <-> exists g, g ∈ groups /\ cn_search g = Some scope.
Proof.
  induction groups as [| g rest IH]; simpl.
  - split; [intros Hin; by apply not_elem_of_empty in Hin | intros (g & Hg & _); inversion Hg].
  - destruct (cn_search g) as [cn |] eqn:E.
    + rewrite elem_of_union, elem_of_singleton, IH. split.
      * intros [-> | (g' & Hg' & Hs)]; [exists g; split; [left | exact E] |].
        exists g'. split; [by right | exact Hs].
      * intros (g' & [-> | Hg']%elem_of_cons & Hs); [left; congruence |].
        right. by exists g'.
    + rewrite IH. split.
      * intros (g' & Hg' & Hs). exists g'. split; [by right | exact Hs].
      * intros (g' & [-> | Hg']%elem_of_cons & Hs); [congruence |]. by exists g'.
Qed.

(** The scopes of a user are the common names of the groups in the
    memberOf attribute of the single entry found. No entry is "user not
    found", more than one fails the assertion, and an entry without
    memberOf attribute raises KeyError. *)
Theorem user_scopes_from_member_of results :
  (results = [] -> user_scopes results = Raise_UserNotFound) /\
  (forall a b rest, results = a :: b :: rest -> user_scopes results = Raise_AssertionError) /\
  (forall result, results = [result] -> result !! "memberOf" = None ->
     user_scopes results = Raise_KeyError) /\
  (forall result groups, results = [result] -> result !! "memberOf" = Some groups ->
     exists scopes, user_scopes results = Scopes scopes /\
       forall scope, scope ∈ scopes <->
                     exists g, g ∈ groups /\ cn_search g = Some scope).
Proof.
  split; [by intros -> |]. split; [by intros a b rest -> |]. split.
  - intros result -> Hm. simpl. by rewrite Hm.
  - intros result groups -> Hm. simpl. rewrite Hm.
    eexists. split; [reflexivity |]. intros scope. apply elem_of_scopes_of.
Qed.

Definition two_hosts : ActiveDirectoryClient :=
  {| _controllers := ["ldap://dc1"; "ldap://dc2"; "ldap://dc3"];
     _bases := ["DC=a"; "DC=b"; "DC=c"] |}.

Lemma rotation_visits_every_controller_witness :
  rotated 3 two_hosts = two_hosts.
Proof.
  apply (rotation_visits_every_controller two_hosts). reflexivity.
Defined.

Lemma constructed_client_keeps_pairs_witness :
  Forall2 (base_of (fun url => Some ("base of " +:+ url)))
          ["ldaps://dc1"; "ldaps://dc2"]
          ["base of ldaps://dc1"; "base of ldaps://dc2"].
Proof.
  destruct (constructed_client_keeps_pairs None None
              (fun url => Some ("base of " +:+ url))
              "linux" (Some "corp") (Some ["dc1"; "dc2"]) true "gssapi"
              "CORP" "GSSAPI"
              {| _controllers := ["ldaps://dc1"; "ldaps://dc2"];
                 _bases := ["base of ldaps://dc1"; "base of ldaps://dc2"] |})
    as (_ & _ & Hpairs); [reflexivity |].
  exact (Hpairs 0%nat).
Defined.

Lemma anonymous_request_makes_no_lookup_witness :
  authenticate (fun _ => Some "alice") first_down two_controllers (Some "Basic abc")
    = {| outcome := Return_None; client := two_controllers; attempts := 0 |}.
Proof.
  apply anonymous_request_makes_no_lookup.
  right. right. exists "Basic abc". split; [reflexivity |]. left. discriminate.
Defined.

Lemma scope_is_common_name_witness :
  cn_search "CN=Operators,OU=Groups,DC=corp" = Some "Operators".
Proof.
  destruct scope_is_common_name as [Hfound _].
  exact (Hfound "Operators" "OU=Groups,DC=corp" eq_refl).
Defined.

End AuthClientSpec.

Module DiscoveryMoreSpec.
Import Py Discovery DiscoverySpec AuthClient DiscoverDomain.

(** What the [else] of the loop of [get_rtt] returns for the times
    collected. *)
Definition finish (acc : list Q) : rtt_result :=
  match acc with
  | [] => Raise_ZeroDivisionError
  | _ => Rtt (Finite (mean acc))
  end.

Lemma get_rtt_loop_all connect (times : nat -> Q) i n acc :
  (forall j, (j < n)%nat -> connect (i + j)%nat = Some (times (i + j)%nat)) ->
  get_rtt_loop connect i n acc = finish (acc ++ (times <$> seq i n))%list.
Proof.
  revert i acc. induction n as [| n IH]; intros i acc Hall; simpl.
  - by rewrite app_nil_r.
  - pose proof (Hall 0%nat ltac:(lia)) as H0. rewrite Nat.add_0_r in H0. rewrite H0.
    rewrite IH.
    + by rewrite <- (assoc (++)).
    + intros j Hj. replace (S i + j)%nat with (i + S j)%nat by lia. apply Hall. lia.
Qed.

Lemma get_rtt_loop_inf connect i n acc :
  get_rtt_loop connect i n acc = Rtt Inf <->
  exists j, (j < n)%nat /\ connect (i + j)%nat = None.
Proof.
  revert i acc. induction n as [| n IH]; intros i acc; simpl.
  - split; [by destruct acc | intros (j & Hj & _); lia].
  - destruct (connect i) as [elapsed |] eqn:E.
    + rewrite IH. split.
      * intros (j & Hj & Hc). exists (S j). split; [lia |].
        by replace (i + S j)%nat with (S i + j)%nat by lia.
      * intros (j & Hj & Hc). destruct j as [| j].
        { rewrite Nat.add_0_r in Hc. congruence. }
        exists j. split; [lia |].
        by replace (S i + j)%nat with (i + S j)%nat by lia.
    + split; [| reflexivity]. intros _. exists 0%nat.
      split; [lia | by rewrite Nat.add_0_r].
Qed.

(** X20. A host counts as unreachable exactly when one of the attempted
    connections fails; when all of them succeed its round-trip time is the
    mean of the times measured; and with no attempt to make the mean is a
    division by zero. *)
Theorem get_rtt_unreachable_on_any_failure connect mean_rtt_attempts :
  (get_rtt connect mean_rtt_attempts = Rtt Inf <->
   exists j, (j < Z.to_nat mean_rtt_attempts)%nat /\ connect j = None) /\
  (mean_rtt_attempts <= 0 -> get_rtt connect mean_rtt_attempts = Raise_ZeroDivisionError) /\
  (forall times : nat -> Q,
     0 < mean_rtt_attempts ->
     (forall j, (j < Z.to_nat mean_rtt_attempts)%nat -> connect j = Some (times j)) ->
     get_rtt connect mean_rtt_attempts
       = Rtt (Finite (mean (times <$> seq 0 (Z.to_nat mean_rtt_attempts))))).
Proof.
  unfold get_rtt. split; [apply (get_rtt_loop_inf connect 0) |]. split.
  - intros Hle. by replace (Z.to_nat mean_rtt_attempts) with 0%nat by lia.
  - intros times Hpos Hall.
    rewrite (get_rtt_loop_all connect times 0) by exact Hall. simpl.
    destruct (Z.to_nat mean_rtt_attempts) as [| n] eqn:E; [lia | reflexivity].
Qed.

Lemma results_length futs rtts : results futs = Some rtts -> length rtts = length futs.
Proof.
  revert rtts. induction futs as [| [r |] rest IH]; simpl; intros rtts.
  - by intros [= <-].
  - destruct (results rest) as [rs |]; [| discriminate].
    intros [= <-]. simpl. by rewrite (IH rs).
  - discriminate.
Qed.

Lemma results_no_zero_division futs rtts :
  results futs = Some rtts -> Forall (fun f => f <> Raise_ZeroDivisionError) futs.
Proof.
  revert rtts. induction futs as [| [r |] rest IH]; simpl; intros rtts.
  - constructor.
  - destruct (results rest) as [rs |]; [| discriminate].
    intros _. constructor; [discriminate | by apply (IH rs)].
  - discriminate.
Qed.

(** X21. Discovery is refused off Windows and fails with "no hosts found"
    when the listing has no name with a dot. When it returns, every host
    returned is such a listed name, and for a limit that is not negative
    the number of hosts returned is the limit or, if there are fewer, the
    number of candidates. *)
Theorem discover_returns_listed_hosts connect platform domain stdout attempts limit :
  (platform <> "win32" ->
   discover_domain_controllers connect platform domain stdout attempts limit
     = Raise_RuntimeError) /\
  (platform = "win32" -> list_domain_controllers stdout = [] ->
   discover_domain_controllers connect platform domain stdout attempts limit
     = Raise_NoHostsFound domain) /\
  (forall hosts,
     discover_domain_controllers connect platform domain stdout attempts limit
       = Hosts hosts ->
     (forall h, h ∈ hosts ->
        h ∈ List.map first_word stdout /\ contains "." h = true) /\
     (0 <= limit ->
      length hosts = (Z.to_nat limit `min` length (list_domain_controllers stdout))%nat)).
Proof.
  unfold discover_domain_controllers. split; [| split].
  - intros Hp. by destruct (String.eqb_spec platform "win32").
  - intros -> ->. reflexivity.
  - intros hosts. destruct (String.eqb platform "win32"); [simpl | discriminate].
    set (candidates := list_domain_controllers stdout).
    destruct candidates as [| c cs] eqn:Ec; [discriminate |]. rewrite <- Ec.
    destruct (results (List.map (fun host => get_rtt (connect host) attempts) candidates))
      as [rtts |] eqn:Er; [| discriminate].
    intros [= <-].
    apply results_length in Er. rewrite length_map in Er.
    assert ((sorted (zip rtts candidates)).*2 ≡ₚ candidates) as Hperm.
    { rewrite sorted_Permutation. rewrite snd_zip by lia. reflexivity. }
    split.
    + intros h Hh.
      assert (h ∈ (sorted (zip rtts candidates)).*2) as Hin.
      { unfold slice_to in Hh. destruct (0 <=? limit);
          (eapply elem_of_sublist; [exact Hh | apply sublist_take]). }
      rewrite Hperm in Hin. subst candidates. unfold list_domain_controllers in Hin.
      apply list_elem_of_In, filter_In in Hin as [Hin Hdot].
      split; [by apply list_elem_of_In | exact Hdot].
    + intros Hlimit. unfold slice_to.
      destruct (Z.leb_spec 0 limit); [| lia].
      rewrite length_take. f_equal. apply Permutation_length in Hperm.
      by rewrite <- Hperm.
Qed.

(** Text without a dot. *)
Fixpoint no_dot (s : string) : bool :=
  match s with
  | EmptyString => true
  | String c rest => negb (Ascii.eqb c "."%char) && no_dot rest
  end.

Lemma drop_chars_app host s :
  drop_chars (String.length host) (host +:+ s) = s.
Proof. induction host as [| c host IH]; simpl; [by destruct s | exact IH]. Qed.

Lemma drop_chars_past n s : (String.length s <= n)%nat -> drop_chars n s = "".
Proof.
  revert n. induction s as [| c s IH]; intros n Hn; [by destruct n |].
  destruct n as [| n]; simpl in *; [lia |]. apply IH. lia.
Qed.

Lemma before_dot_label label rest :
  no_dot label = true -> before_dot (label +:+ String "."%char rest) = label.
Proof.
  induction label as [| c label IH]; simpl; [reflexivity |].
  intros [Hc Hl]%andb_true_iff. apply negb_true_iff in Hc.
  by rewrite Hc, IH.
Qed.

Lemma before_dot_whole label : no_dot label = true -> before_dot label = label.
Proof.
  induction label as [| c label IH]; simpl; [reflexivity |].
  intros [Hc Hl]%andb_true_iff. apply negb_true_iff in Hc.
  by rewrite Hc, IH.
Qed.

(** X22. The domain of a host is the first label behind the host name in
    its canonical name, in upper case; a canonical name that is just the
    host name gives the empty domain. *)
Theorem discover_domain_first_label host label :
  no_dot label = true ->
  (forall rest,
     DiscoverDomain.discover_domain
       host (host +:+ String "."%char (label +:+ String "."%char rest)) = upper label) /\
  DiscoverDomain.discover_domain host (host +:+ String "."%char label) = upper label /\
  DiscoverDomain.discover_domain host host = "".
Proof.
  intros Hl. unfold DiscoverDomain.discover_domain.
  assert (forall s, drop_chars (String.length host + 1) (host +:+ String "."%char s) = s)
    as Hdrop.
  { intros s. rewrite Nat.add_1_r.
    induction host as [| c host IH]; simpl; [reflexivity | exact IH]. }
  split; [| split].
  - intros rest. by rewrite Hdrop, before_dot_label.
  - by rewrite Hdrop, before_dot_whole.
  - by rewrite drop_chars_past by lia.
Qed.

Lemma discover_domain_first_label_witness :
  DiscoverDomain.discover_domain "pc17" "pc17.corp.example.com" = "CORP".
Proof.
  destruct (discover_domain_first_label "pc17" "corp") as [H _]; [reflexivity |].
  exact (H "example.com").
Defined.

Definition second_attempt_fails (j : nat) : option Q :=
  if (j =? 1)%nat then None else Some (10 # 1000)%Q.

Lemma get_rtt_unreachable_on_any_failure_witness :
  get_rtt second_attempt_fails 3 = Rtt Inf.
Proof.
  destruct (get_rtt_unreachable_on_any_failure second_attempt_fails 3) as [[_ Hinf] _].
  apply Hinf. exists 1%nat. split; [simpl; lia | reflexivity].
Defined.

Definition listing : list string :=
  [ "    dc1.corp.local [PDC]  [DS] Site: Main";
    "    dc2.corp.local        [DS] Site: Main";
    "    dc3.corp.local        [DS] Site: Main";
    "The command completed successfully" ].

Lemma discover_returns_listed_hosts_witness :
  exists hosts,
    discover_domain_controllers (fun _ => second_attempt_fails) "win32" "CORP"
                                listing 1 2 = Hosts hosts /\
    length hosts = 2%nat.
Proof.
  destruct (discover_returns_listed_hosts (fun _ => second_attempt_fails) "win32"
              "CORP" listing 1 2) as (_ & _ & Hhosts).
  assert (discover_domain_controllers (fun _ => second_attempt_fails) "win32" "CORP"
            listing 1 2 = Hosts ["dc1.corp.local"; "dc2.corp.local"]) as Hrun
    by (by vm_compute).
  exists ["dc1.corp.local"; "dc2.corp.local"]. split; [exact Hrun |].
  destruct (Hhosts _ Hrun) as [_ Hlen]. rewrite Hlen by lia. reflexivity.
Defined.

End DiscoveryMoreSpec.

Module FileCookieFlowSpec.
Import Py FileCookie FileCookieFlow.

(** X23. A flow that was constructed always finds the parser for its file:
    sending a request never fails on an unbound cookie mapping, and the
    parser is chosen by the suffix without regard to case. *)
Theorem constructed_flow_has_parser path_exists path p :
  FileCookieAuthFlow_init path_exists path = Flow p ->
  p = path /\
  (exists parser, parser_for path = Some parser) /\
  (forall read_text parse, auth_flow read_text parse path <> Raise_UnboundLocalError).
Proof.
  unfold FileCookieAuthFlow_init, accepted_suffixes, auth_flow, parser_for. simpl.
  destruct (path_exists path); simpl; [| discriminate].
  destruct (String.eqb (lower (suffix path)) ".json");
    [| destruct (String.eqb (lower (suffix path)) ".toml");
       [| destruct (String.eqb (lower (suffix path)) ".yml")]];
    simpl; try discriminate.
  all: intros [= <-]; split; [reflexivity |]; split; [by eexists |].
  all: intros read_text parse; by destruct (parse _ _).
Qed.

Lemma constructed_flow_has_parser_witness :
  exists parser, parser_for "conf/Cookies.YML" = Some parser.
Proof.
  apply (constructed_flow_has_parser (fun _ => true) "conf/Cookies.YML" "conf/Cookies.YML").
  reflexivity.
Defined.

End FileCookieFlowSpec.

Module TraxxUtilMoreSpec.
Import Py TraxxUtil.

(** X24. A response yields CSV rows exactly when its status is below 400
    and its body is not empty, does not hold the HTML marker and decodes;
    the rows are then those read from the decoded body. An empty body with
    such a status yields nothing, and with the status check suppressed an
    error status yields nothing either. *)
Theorem handle_request_rows decode csv_reader response flag :
  (forall rows,
     handle_request decode csv_reader response flag = Return_reader rows <->
     status response < 400 /\ body response <> "" /\
     contains html_marker (body response) = false /\
     exists text, decode (body response) = Some text /\ rows = csv_reader text) /\
  (status response < 400 -> body response = "" ->
   handle_request decode csv_reader response flag = Return_None) /\
  (400 <= status response ->
   handle_request decode csv_reader response false = Return_None).
Proof.
  unfold handle_request, ok. split; [| split].
  - intros rows. destruct (Z.ltb_spec (status response) 400) as [Hlt | Hge]; simpl.
    + destruct (body response) as [| c b] eqn:Eb.
      * split; [discriminate | intros (_ & Hne & _); congruence].
      * destruct (contains html_marker (String c b)) eqn:Em.
        { split; [discriminate | intros (_ & _ & Hm & _); congruence]. }
        destruct (decode (String c b)) as [text |] eqn:Ed.
        { split.
          - intros [= <-]. repeat split; try lia; try discriminate. by exists text.
          - intros (_ & _ & _ & text' & [= <-] & ->). reflexivity. }
        split; [discriminate | intros (_ & _ & _ & text' & Hd & _); discriminate].
    + split; [destruct flag; discriminate | intros (Hlt & _); lia].
  - intros Hlt ->. destruct (Z.ltb_spec (status response) 400); [reflexivity | lia].
  - intros Hge. destruct (Z.ltb_spec (status response) 400); [lia | reflexivity].
Qed.

Lemma handle_request_rows_witness :
  handle_request (fun b => Some b) (fun text => [[text]])
                 {| status := 200; body := "a,b" |} true
    = Return_reader [["a,b"]].
Proof.
  destruct (handle_request_rows (fun b => Some b) (fun text => [[text]])
              {| status := 200; body := "a,b" |} true) as [Hrows _].
  apply Hrows. simpl. split; [lia |]. split; [discriminate |].
  split; [reflexivity |]. by exists "a,b".
Defined.

End TraxxUtilMoreSpec.

Module DialoutSpec.
Import Py TelAlertModels TelAlertClient TelAlertStream Dialout PySpec TelAlertStreamSpec.

Definition keys (collection : list DialoutDocument) : list string :=
  idempotency_key <$> collection.

Lemma key_stored collection key :
  existsb (fun d => String.eqb (idempotency_key d) key) collection = true <->
  key ∈ keys collection.
Proof.
  unfold keys. rewrite existsb_exists, list_elem_of_fmap. split.
  - intros (d & Hd & He). apply String.eqb_eq in He.
    exists d. split; [by symmetry | by apply list_elem_of_In].
  - intros (d & -> & Hd). exists d.
    split; [by apply list_elem_of_In | apply String.eqb_refl].
Qed.

Lemma insert_one_fresh collection document :
  idempotency_key document ∉ keys collection ->
  insert_one collection document = Some (collection ++ [stored document])%list.
Proof.
  intros Hfresh. unfold insert_one.
  destruct (existsb _ collection) eqn:E; [| reflexivity].
  by apply key_stored in E.
Qed.

Lemma insert_one_duplicate collection document :
  idempotency_key document ∈ keys collection -> insert_one collection document = None.
Proof.
  intros Hdup. unfold insert_one. apply key_stored in Hdup. by rewrite Hdup.
Qed.

(** X25. Posting is idempotent in the key: a request whose key is not
    stored is stored and reported as posted, and the stored keys stay
    distinct; a request whose key is stored, whoever posts it and whenever,
    is reported as not posted and leaves the collection as it was. *)
Theorem post_dialout_once_per_key identity now dialout collection :
  NoDup (keys collection) ->
  (request_key dialout ∉ keys collection ->
   post_dialout identity now dialout collection
     = (true, collection ++ [stored (to_document identity now dialout)])%list /\
   NoDup (keys (collection ++ [stored (to_document identity now dialout)])) /\
   forall identity' now',
     post_dialout identity' now' dialout
                  (collection ++ [stored (to_document identity now dialout)])%list
       = (false, (collection ++ [stored (to_document identity now dialout)])%list)) /\
  (request_key dialout ∈ keys collection ->
   post_dialout identity now dialout collection = (false, collection)).
Proof.
  intros Hnd. unfold post_dialout. split.
  - intros Hfresh. rewrite insert_one_fresh by exact Hfresh.
    split; [reflexivity |]. split.
    + unfold keys. rewrite fmap_app. simpl.
      apply NoDup_app. split; [exact Hnd |]. split; [| apply NoDup_singleton].
      intros k Hk Hk'%list_elem_of_singleton. by subst k.
    + intros identity' now'. rewrite insert_one_duplicate; [reflexivity |].
      unfold keys. rewrite fmap_app. simpl. apply elem_of_app. right. left.
  - intros Hdup. by rewrite insert_one_duplicate.
Qed.

(** X26. The alert route dispatches at most once per idempotency key: for
    a key that is stored it answers FAILED, stores nothing and adds no
    task; for a new key it stores the document, answers OK and adds the one
    task that sends the message. *)
Theorem alert_dispatches_once_per_key client identity now dialout collection :
  (request_key dialout ∈ keys collection ->
   alert client identity now dialout collection = (FAILED, collection, None)) /\
  (request_key dialout ∉ keys collection ->
   alert client identity now dialout collection
     = (OK, (collection ++ [stored (to_document identity now dialout)])%list,
        Some (send_alert client (request_message dialout))) /\
   forall identity' now',
     alert client identity' now' dialout
           (collection ++ [stored (to_document identity now dialout)])%list
       = (FAILED, (collection ++ [stored (to_document identity now dialout)])%list, None)).
Proof.
  unfold alert, post_dialout. split.
  - intros Hdup. by rewrite insert_one_duplicate.
  - intros Hfresh. rewrite insert_one_fresh by exact Hfresh.
    split; [reflexivity |]. intros identity' now'.
    rewrite insert_one_duplicate; [reflexivity |].
    unfold keys. rewrite fmap_app. simpl. apply elem_of_app. right. left.
Qed.

(** X27. What is posted can be read back: after a request has been stored
    at a time inside the queried range, the stream of that range holds its
    row, which gives the time of posting, the user, the service, the key
    and the subject, groups, destinations and text of the message. *)
Theorem posted_alert_is_streamed identity now clock dialout collection start_time end_time :
  request_key dialout ∉ keys collection ->
  dt_ge (bson_datetime now) start_time = true ->
  dt_le (bson_datetime now) end_time = true ->
  dt_lt start_time end_time = true ->
  exists rows,
    get_alerts (post_dialout identity now dialout collection).2 clock start_time
               (Some end_time)
      = (Yield rows, [{| q_gte := start_time; q_lte := end_time |}]) /\
    (isoformat (bson_datetime now), identity, "telalert", request_key dialout,
     optional_str (subject (request_message dialout)),
     optional_list (groups (request_message dialout)),
     optional_list (destinations (request_message dialout)),
     VStr (msg (request_message dialout))) ∈ rows.
Proof.
  intros Hfresh Hge Hle Hlt. unfold post_dialout.
  rewrite insert_one_fresh by exact Hfresh. simpl.
  unfold get_alerts. rewrite dt_ge_not_lt, Hlt. simpl.
  eexists. split; [reflexivity |].
  apply list_elem_of_fmap. exists (stored (to_document identity now dialout)). split.
  - reflexivity.
  - apply find_sorted_elem. simpl. split; [| split].
    + apply elem_of_app. right. left.
    + by apply bson_datetime_ge_cut.
    + apply bson_datetime_le_cut; [apply bson_datetime_idem | exact Hle].
Qed.

(** X28. A message is constructed exactly when its text is given and at
    least one of groups and destinations is a non-empty list; the message
    then holds the text, and the lists as they were given. *)
Theorem message_needs_a_recipient kw :
  (forall m, TelAlertMessage_init kw = inr m ->
     kw_msg kw = Given (msg m) /\
     groups m = check_sequence (kw_groups kw) /\
     destinations m = check_sequence (kw_destinations kw) /\
     (truthy (groups m) = true \/ truthy (destinations m) = true)) /\
  (forall text,
     kw_msg kw = Given text ->
     truthy (check_sequence (kw_groups kw)) = true \/
     truthy (check_sequence (kw_destinations kw)) = true ->
     exists m, TelAlertMessage_init kw = inr m) /\
  (truthy (check_sequence (kw_groups kw)) = false ->
   truthy (check_sequence (kw_destinations kw)) = false ->
   exists errors, TelAlertMessage_init kw = inl errors).
Proof.
  unfold TelAlertMessage_init, _validate_message. split; [| split].
  - intros m.
    destruct (truthy (check_sequence (kw_groups kw))) eqn:Eg,
             (truthy (check_sequence (kw_destinations kw))) eqn:Ed,
             (kw_msg kw) as [| | text]; simpl; try discriminate.
    all: intros [= <-]; simpl; auto.
  - intros text -> Hany.
    destruct (truthy (check_sequence (kw_groups kw))),
             (truthy (check_sequence (kw_destinations kw))); simpl;
      try (by eexists). destruct Hany; discriminate.
  - intros -> ->. simpl. destruct (check_msg (kw_msg kw)); by eexists.
Qed.

(** X29. Sending a message whose groups and destinations are both lists
    runs one command per group and one per destination, the groups first,
    each command naming the executable, the recipient, the text, the host
    and the subject of the message, the empty string standing for a
    subject that is absent; a constructed message of this kind always runs
    at least one command. *)
Theorem send_alert_one_command_each self m gs ds :
  groups m = Some gs -> destinations m = Some ds ->
  exists commands,
    send_alert self m = Dispatched commands /\
    length commands = (length gs + length ds)%nat /\
    (forall i g, gs !! i = Some g ->
       commands !! i
         = Some [_path self; "-g"; g; "-m"; msg m; "-host"; _host self; "-subject";
                 match subject m with Some s => s | None => "" end]) /\
    (forall i d, ds !! i = Some d ->
       commands !! (length gs + i)%nat
         = Some [_path self; "-i"; d; "-m"; msg m; "-host"; _host self; "-subject";
                 match subject m with Some s => s | None => "" end]) /\
    (forall kw, TelAlertMessage_init kw = inr m -> commands <> []).
Proof.
  intros Hg Hd. unfold send_alert. rewrite Hg, Hd.
  assert (match subject m with Some (String c s) => String c s | _ => "" end
          = match subject m with Some s => s | None => "" end) as ->
      by (by destruct (subject m) as [[| c s] |]).
  eexists. split; [reflexivity |]. split; [| split; [| split]].
  - by rewrite length_app, !length_map.
  - intros i g Hi.
    rewrite lookup_app_l by (rewrite length_map; by eapply lookup_lt_Some).
    change (List.map ?f gs) with (f <$> gs).
    by rewrite list_lookup_fmap, Hi.
  - intros i d Hi.
    rewrite lookup_app_r by (rewrite length_map; lia).
    rewrite length_map. replace (length gs + i - length gs)%nat with i by lia.
    change (List.map ?f ds) with (f <$> ds).
    by rewrite list_lookup_fmap, Hi.
  - intros kw Hinit Hnil.
    apply (f_equal (@length _)) in Hnil. rewrite length_app, !length_map in Hnil.
    unfold TelAlertMessage_init, _validate_message in Hinit.
    destruct (truthy (check_sequence (kw_groups kw))) eqn:Eg,
             (truthy (check_sequence (kw_destinations kw))) eqn:Ed,
             (kw_msg kw) as [| | text]; simpl in Hinit; try discriminate.
    all: injection Hinit as <-; simpl in *.
    all: rewrite ?Hg in Eg; rewrite ?Hd in Ed.
    all: destruct gs, ds; simpl in *; try discriminate; lia.
Qed.

(** X30. A message that the HTTP client builds with destinations only has
    its groups set to None, because the client passes the parameter it was
    not given on as None. The alert route stores such a request and
    answers OK, and the task it adds raises on the groups without running
    a command. *)
Theorem client_alert_without_groups text ds subj :
  ds <> [] ->
  exists m,
    client_message text None (Some ds) subj = inr m /\
    groups m = None /\
    TelAlertMessage_init (transmitted m) = inr m /\
    forall client identity now key collection,
      key ∉ keys collection ->
      alert client identity now {| request_message := m; request_key := key |} collection
        = (OK,
           (collection ++ [stored (to_document identity now
                                     {| request_message := m; request_key := key |})])%list,
           Some (Raise_TypeError "'NoneType' object is not iterable")).
Proof.
  intros Hds. destruct ds as [| d ds]; [congruence |].
  eexists. split; [reflexivity |]. split; [reflexivity |].
  split; [by destruct subj as [[| c s] |] |].
  intros client identity now key collection Hfresh.
  unfold alert, post_dialout. by rewrite insert_one_fresh.
Qed.

Definition pump_alert : DialoutRequest :=
  {| request_message := {| msg := "Pump 4 tripped"; groups := Some ["ops"];
                           destinations := Some []; subject := None |};
     request_key := "k1" |}.

Lemma post_dialout_once_per_key_witness :
  post_dialout "alice" (mk_datetime 2023 3 1 9 0 0 0) pump_alert [] =
    (true, [stored (to_document "alice" (mk_datetime 2023 3 1 9 0 0 0) pump_alert)]).
Proof.
  destruct (post_dialout_once_per_key "alice" (mk_datetime 2023 3 1 9 0 0 0)
              pump_alert []) as [Hfresh _]; [constructor |].
  destruct Hfresh as [Hpost _]; [intros Hin; inversion Hin | exact Hpost].
Defined.

Lemma posted_alert_is_streamed_witness :
  exists rows,
    get_alerts (post_dialout "alice" (mk_datetime 2023 3 1 9 0 0 0) pump_alert []).2
               (mk_datetime 2023 3 2 0 0 0 0) (mk_datetime 2023 3 1 8 0 0 0)
               (Some (mk_datetime 2023 3 1 10 0 0 0))
      = (Yield rows, [{| q_gte := mk_datetime 2023 3 1 8 0 0 0;
                         q_lte := mk_datetime 2023 3 1 10 0 0 0 |}]) /\
    ("2023-03-01T09:00:00", "alice", "telalert", "k1", VNone,
     VList [VStr "ops"], VList [], VStr "Pump 4 tripped") ∈ rows.
Proof.
  apply (posted_alert_is_streamed "alice" (mk_datetime 2023 3 1 9 0 0 0)
           (mk_datetime 2023 3 2 0 0 0 0) pump_alert []
           (mk_datetime 2023 3 1 8 0 0 0) (mk_datetime 2023 3 1 10 0 0 0));
    try reflexivity.
  intros Hin. inversion Hin.
Defined.

Definition pump_message : TelAlertMessage :=
  {| msg := "Pump 4 tripped"; groups := Some ["ops"]; destinations := Some ["oncall"];
     subject := Some "Station 2" |}.

Lemma send_alert_one_command_each_witness :
  exists commands,
    send_alert {| _path := "telalert.exe"; _host := "alerts01" |} pump_message
      = Dispatched commands /\
    length commands = 2%nat /\
    commands !! 0%nat
      = Some ["telalert.exe"; "-g"; "ops"; "-m"; "Pump 4 tripped"; "-host"; "alerts01";
              "-subject"; "Station 2"] /\
    commands !! 1%nat
      = Some ["telalert.exe"; "-i"; "oncall"; "-m"; "Pump 4 tripped"; "-host"; "alerts01";
              "-subject"; "Station 2"].
Proof.
  destruct (send_alert_one_command_each {| _path := "telalert.exe"; _host := "alerts01" |}
              pump_message ["ops"] ["oncall"])
    as (commands & Hsend & Hlen & Hgroups & Hdests & _); try reflexivity.
  exists commands. split; [exact Hsend |]. split; [exact Hlen |]. split.
  - exact (Hgroups 0%nat "ops" eq_refl).
  - exact (Hdests 0%nat "oncall" eq_refl).
Defined.

Lemma client_alert_without_groups_witness :
  exists m, client_message "Pump 4 tripped" None (Some ["oncall"]) None = inr m /\
            groups m = None.
Proof.
  destruct (client_alert_without_groups "Pump 4 tripped" ["oncall"] None)
    as (m & Hm & Hg & _ & _); [discriminate |].
  by exists m.
Defined.

Lemma alert_dispatches_once_per_key_witness :
  alert {| _path := "telalert.exe"; _host := "alerts01" |} "bob"
        (mk_datetime 2023 3 1 9 5 0 0) pump_alert
        [stored (to_document "alice" (mk_datetime 2023 3 1 9 0 0 0) pump_alert)]
    = (FAILED,
       [stored (to_document "alice" (mk_datetime 2023 3 1 9 0 0 0) pump_alert)],
       None).
Proof.
  destruct (alert_dispatches_once_per_key
              {| _path := "telalert.exe"; _host := "alerts01" |} "alice"
              (mk_datetime 2023 3 1 9 0 0 0) pump_alert []) as [_ Hnew].
  destruct Hnew as [_ Hrepeat]; [intros Hin; inversion Hin |].
  exact (Hrepeat "bob" (mk_datetime 2023 3 1 9 5 0 0)).
Defined.

Lemma message_needs_a_recipient_witness :
  exists m,
    TelAlertMessage_init
      {| kw_msg := Given "Pump 4 tripped"; kw_groups := Omitted;
         kw_destinations := Given ["oncall"]; kw_subject := Omitted |} = inr m.
Proof.
  destruct (message_needs_a_recipient
              {| kw_msg := Given "Pump 4 tripped"; kw_groups := Omitted;
                 kw_destinations := Given ["oncall"]; kw_subject := Omitted |})
    as (_ & Hbuilt & _).
  apply (Hbuilt "Pump 4 tripped"); [reflexivity | by right].
Defined.

End DialoutSpec.
